(** * coloringpage-fun: the key service, the poll loop and their callers

    A shallow embedding of
      - [api/get-key.js] (the serverless key endpoint) and the
        [/api/get-key] route of [server.js],
      - [services/geminiService.ts] ([getApiKey], [initializeApp],
        [generateVideoFromImage]),
      - the two handlers of [App.tsx] that call the service
        ([init] and [handleGenerateVideo]), and of its other handlers
        [handleSelectApiKey], [handleShare] of the share button and the
        camera handlers of the image uploader.

    Asynchronous code is written in a small monad over the module-level
    variables of the service and the browser's interval timers.  A
    computation returns how its promise settles, the state it leaves and
    the requests and timer calls it made, in order.  What the outside
    world answers (the key server, the video service, AI Studio) is an
    argument [Env] of every operation.  Every awaited request is taken to
    be answered, with a value or with an error: a request that never
    answers is outside the model.  Console logging is not modelled, nor is
    the firing of the cosmetic message-rotation callback. *)

From Stdlib Require Import String Ascii List Bool Arith ZArith Lia.
Import ListNotations.
Local Open Scope string_scope.
Local Open Scope list_scope.

(** ** JavaScript values, as far as the code inspects them *)

(** An [Error] object: the code only ever reads [message], which is a
    string on every [Error] instance ([new Error()] has message [""]). *)
Record JsError := Error { message : string }.

(** How an awaited promise settles. *)
Inductive Outcome (A : Type) :=
| Resolved (a : A)
| Rejected (e : JsError).
Arguments Resolved {A} a.
Arguments Rejected {A} e.

(** A value of type [string | undefined | null] tested by [if (v)],
    [!v] or [v || d]: the string when it is truthy, i.e. present and
    not empty. *)
Definition truthy (v : option string) : option string :=
  match v with
  | Some s => if (s =? "")%string then None else Some s
  | None => None
  end.

Definition is_truthy (v : option string) : bool :=
  match truthy v with
  | Some _ => true
  | None => false
  end.

(** [v || d]. *)
Definition or_else (v : option string) (d : string) : string :=
  match truthy v with
  | Some s => s
  | None => d
  end.

(** [flag] of type [boolean | undefined] tested by [!flag]. *)
Definition truthy_flag (flag : option bool) : bool :=
  match flag with
  | Some b => b
  | None => false
  end.

(** [hay.includes(needle)]. *)
Fixpoint includes (hay needle : string) : bool :=
  if prefix needle hay then true
  else match hay with
       | EmptyString => false
       | String _ rest => includes rest needle
       end.

Module Server.

(** ** The key endpoint: [api/get-key.js] and the route of [server.js] *)

(** A JSON object whose properties are strings. *)
Inductive Json :=
| JObject (fields : list (string * string)).

(** The response object [res]: [statusCode] starts at 200, [status(c)]
    sets it, [json(v)] sends [v] as the body. *)
Record Res := { statusCode : Z; body : option Json }.

Definition fresh_res : Res := {| statusCode := 200; body := None |}.

Definition status (c : Z) (res : Res) : Res :=
  {| statusCode := c; body := body res |}.

Definition json (v : Json) (res : Res) : Res :=
  {| statusCode := statusCode res; body := Some v |}.

Definition not_configured : string :=
  "GEMINI_API_KEY is not configured on the server.".

(** [module.exports = (req, res) => ...] of [api/get-key.js]:
    [process.env.GEMINI_API_KEY] is read at every request. *)
Definition get_key (GEMINI_API_KEY : option string) (res : Res) : Res :=
  let apiKey := GEMINI_API_KEY in
  match truthy apiKey with
  | Some key => json (JObject [("apiKey", key)]) res
  | None => json (JObject [("error", not_configured)]) (status 500 res)
  end.

(** [server.js]: [const apiKey = process.env.GEMINI_API_KEY] is read once
    when the module is loaded; the route closes over it. *)
Record App := { apiKey : option string }.

Definition load (GEMINI_API_KEY : option string) : App :=
  {| apiKey := GEMINI_API_KEY |}.

(** [app.get('/api/get-key', (req, res) => ...)]. *)
Definition app_get_key (app : App) (res : Res) : Res :=
  match truthy (apiKey app) with
  | Some key => json (JObject [("apiKey", key)]) res
  | None => json (JObject [("error", not_configured)]) (status 500 res)
  end.

End Server.

(** ** The world of the browser module *)

Inductive AspectRatio := Landscape_16_9 | Portrait_9_16.

(** [GenerateVideoParams] of [types.ts].  Its fourth member, the
    callback [setLoadingMessage], is modelled by the event
    [LoadingMessage] that each of its calls leaves in the log. *)
Record GenerateVideoParams := {
  prompt : string;
  imageBase64 : string;
  aspectRatio : AspectRatio
}.

(** The argument of [ai.models.generateVideos]. *)
Record VideosRequest := {
  model : string;
  request_prompt : string;
  imageBytes : string;
  mimeType : string;
  numberOfVideos : Z;
  resolution : string;
  request_aspectRatio : AspectRatio
}.

(** The operation object of the video service, as far as the client
    reads it: [done] may be absent, [uri] stands for
    [operation.response?.generatedVideos?.[0]?.video?.uri]. *)
Record Operation := {
  name : string;
  done : option bool;
  uri : option string
}.

Record Blob := { bytes : string }.

(** The response to [fetch('/api/get-key')].  [json_apiKey] is the
    [apiKey] property of the parsed body when [json()] resolves. *)
Record KeyResponse := {
  key_ok : bool;
  key_status : Z;
  key_text : Outcome string;
  json_apiKey : Outcome (option string)
}.

(** The response to the download [fetch]. *)
Record VideoResponse := {
  ok : bool;
  statusText : string;
  text : Outcome string;
  blob : Outcome Blob
}.

(** What the outside answers during one call of the service. *)
Record Env := {
  aistudio : option (Outcome bool);
    (* window.aistudio, with how its hasSelectedApiKey() settles *)
  API_KEY : option string;
    (* process.env.API_KEY *)
  fetchKey : Outcome KeyResponse;
    (* fetch('/api/get-key') *)
  generateVideos : Outcome Operation;
    (* ai.models.generateVideos(...) *)
  getVideosOperation : nat -> Outcome Operation;
    (* the n-th poll of this call, n = 0, 1, ... *)
  fetchVideo : string -> Outcome VideoResponse;
    (* fetch(url) of the download *)
  createObjectURL : Blob -> string
}.

(** The module-level variables of [geminiService.ts] and the interval
    timers of the page. *)
Record World := {
  apiKey : option string;
  isInitialized : bool;
  timers : list nat;
  nextTimerId : nat
}.

(** Requests and timer calls, in the order the code makes them. *)
Inductive Event :=
| HasSelectedApiKey
| FetchKey
| LoadingMessage (msg : string)
| GenerateVideos (key : string) (request : VideosRequest)
| SetInterval (id : nat) (ms : Z)
| ClearInterval (id : nat)
| SetTimeout (ms : Z)
| GetVideosOperation (key : string) (operation : Operation)
| FetchVideo (url : string)
| CreateObjectURL (b : Blob).

(** ** The monad of asynchronous computations *)

(** [Pending]: the promise has not settled within the given number of
    loop iterations. *)
Inductive Result (A : Type) :=
| Ret (a : A)
| Throw (e : JsError)
| Pending.
Arguments Ret {A} a.
Arguments Throw {A} e.
Arguments Pending {A}.

Definition M (A : Type) : Type := World -> Result A * World * list Event.

Definition ret {A} (a : A) : M A := fun w => (Ret a, w, []).

Definition throw {A} (e : JsError) : M A := fun w => (Throw e, w, []).

Definition pending {A} : M A := fun w => (Pending, w, []).

Definition bind {A B} (m : M A) (k : A -> M B) : M B :=
  fun w =>
    match m w with
    | (Ret a, w1, l1) =>
        match k a w1 with
        | (r, w2, l2) => (r, w2, l1 ++ l2)
        end
    | (Throw e, w1, l1) => (Throw e, w1, l1)
    | (Pending, w1, l1) => (Pending, w1, l1)
    end.

(** [try { m } catch (error) { h error }]. *)
Definition try_catch {A} (m : M A) (h : JsError -> M A) : M A :=
  fun w =>
    match m w with
    | (Throw e, w1, l1) =>
        match h e w1 with
        | (r, w2, l2) => (r, w2, l1 ++ l2)
        end
    | other => other
    end.

Declare Scope js_scope.
Delimit Scope js_scope with js.
Notation "x <- m ;; k" := (bind m (fun x => k))
  (at level 61, m at next level, right associativity) : js_scope.
Notation "m ;; k" := (bind m (fun _ => k))
  (at level 61, right associativity) : js_scope.
Local Open Scope js_scope.

Definition emit (e : Event) : M unit := fun w => (Ret tt, w, [e]).

(** [await] of a promise the outside settles, after the request [e]. *)
Definition await {A} (e : Event) (o : Outcome A) : M A :=
  fun w =>
    match o with
    | Resolved a => (Ret a, w, [e])
    | Rejected err => (Throw err, w, [e])
    end.

(** [await] of a method of a response already received. *)
Definition settle {A} (o : Outcome A) : M A :=
  fun w =>
    match o with
    | Resolved a => (Ret a, w, [])
    | Rejected err => (Throw err, w, [])
    end.

Definition read {A} (f : World -> A) : M A := fun w => (Ret (f w), w, []).

Definition set_apiKey (v : option string) : M unit :=
  fun w => (Ret tt,
            {| apiKey := v; isInitialized := isInitialized w;
               timers := timers w; nextTimerId := nextTimerId w |}, []).

Definition set_isInitialized (b : bool) : M unit :=
  fun w => (Ret tt,
            {| apiKey := apiKey w; isInitialized := b;
               timers := timers w; nextTimerId := nextTimerId w |}, []).

(** [setInterval(callback, ms)] returns a fresh id, active from now on. *)
Definition setInterval (ms : Z) : M nat :=
  fun w =>
    let id := nextTimerId w in
    (Ret id,
     {| apiKey := apiKey w; isInitialized := isInitialized w;
        timers := id :: timers w; nextTimerId := S id |},
     [SetInterval id ms]).

Definition clearInterval (id : nat) : M unit :=
  fun w =>
    (Ret tt,
     {| apiKey := apiKey w; isInitialized := isInitialized w;
        timers := remove Nat.eq_dec id (timers w);
        nextTimerId := nextTimerId w |},
     [ClearInterval id]).

(** ** [services/geminiService.ts] *)

Definition isAiStudio (env : Env) : bool :=
  match aistudio env with
  | Some _ => true
  | None => false
  end.

Definition DEV_KEY_MISSING : string := "DEV_KEY_MISSING".

Definition getApiKey (env : Env) : M string :=
  if isAiStudio env then
    match truthy (API_KEY env) with
    | None => throw (Error DEV_KEY_MISSING)
    | Some key => ret key
    end
  else
    cached <- read apiKey ;;
    match truthy cached with
    | Some key => ret key
    | None =>
        response <- await FetchKey (fetchKey env) ;;
        if negb (key_ok response) then
          _ <- settle (key_text response) ;;
          throw (Error "Could not connect to the server to get the API key. Please check the server logs.")
        else
          data_apiKey <- settle (json_apiKey response) ;;
          match truthy data_apiKey with
          | None => throw (Error "Server responded but did not provide an API key.")
          | Some key =>
              set_apiKey (Some key) ;;
              ret key
          end
    end.

Definition initializeApp (env : Env) : M bool :=
  let try_key :=
    try_catch
      (_ <- getApiKey env ;;
       set_isInitialized true ;;
       ret true)
      (fun error =>
         if (message error =? DEV_KEY_MISSING)%string then
           set_isInitialized false ;;
           ret false
         else throw error) in
  if isAiStudio env then
    match aistudio env with
    | None =>
        set_isInitialized false ;;
        ret false
    | Some hasSelectedApiKey =>
        hasKey <- await HasSelectedApiKey hasSelectedApiKey ;;
        if negb hasKey then
          set_isInitialized false ;;
          ret false
        else try_key
    end
  else try_key.

Definition LOADING_MESSAGES : list string :=
  [ "Summoning creative spirits...";
    "Teaching your monster to dance...";
    "Coloring in the animation cells...";
    "Adding a sprinkle of magic...";
    "Checking the monster rulebook...";
    "Reticulating splines...";
    "Polishing the final frames..." ].

(** The callback given to [setInterval]: the message it shows and the
    next value of [messageIndex]. *)
Definition rotate_message (messageIndex : nat) : option string * nat :=
  (nth_error LOADING_MESSAGES messageIndex,
   (messageIndex + 1) mod length LOADING_MESSAGES).

(** [while (!operation.done) { wait; operation = poll(operation) }];
    [n] counts the polls made so far, [fuel] bounds the iterations. *)
Fixpoint poll_loop (env : Env) (fuel n : nat) (key : string)
    (operation : Operation) : M Operation :=
  if truthy_flag (done operation) then ret operation
  else
    match fuel with
    | O => pending
    | S fuel' =>
        emit (SetTimeout 10000) ;;
        operation' <- await (GetVideosOperation key operation)
                            (getVideosOperation env n) ;;
        poll_loop env fuel' (S n) key operation'
    end.

Definition generateVideoFromImage (fuel : nat) (env : Env)
    (params : GenerateVideoParams) : M string :=
  initialized <- read isInitialized ;;
  if negb initialized then
    throw (Error "Application is not initialized. Please select an API key if prompted.")
  else
    key <- getApiKey env ;;
    try_catch
      (emit (LoadingMessage "Initializing animation sequence...") ;;
       operation <- await
                      (GenerateVideos key
                         {| model := "veo-3.1-fast-generate-preview";
                            request_prompt := prompt params;
                            imageBytes := imageBase64 params;
                            mimeType := "image/png";
                            numberOfVideos := 1;
                            resolution := "720p";
                            request_aspectRatio := aspectRatio params |})
                      (generateVideos env) ;;
       intervalId <- setInterval 5000 ;;
       emit (LoadingMessage "The animation portal is open. Generating video...") ;;
       operation <- poll_loop env fuel 0 key operation ;;
       clearInterval intervalId ;;
       emit (LoadingMessage "Finalizing your video...") ;;
       match truthy (uri operation) with
       | None => throw (Error "Video generation failed to produce a download link.")
       | Some downloadLink =>
           let url := (downloadLink ++ "&key=" ++ key)%string in
           response <- await (FetchVideo url) (fetchVideo env url) ;;
           if negb (ok response) then
             errorBody <- settle (text response) ;;
             throw (Error ("Failed to download the generated video. Status: "
                           ++ statusText response ++ ". Details: " ++ errorBody)%string)
           else
             videoBlob <- settle (blob response) ;;
             emit (CreateObjectURL videoBlob) ;;
             ret (createObjectURL env videoBlob)
       end)
      (fun error =>
         (if negb (isAiStudio env)
             && is_truthy (Some (message error))
             && includes (message error) "permission" then
            set_apiKey None ;;
            set_isInitialized false
          else ret tt) ;;
         throw error).

(** ** [types.ts]: the result type the component expects *)

Module Types.

(** [GenerateVideoResult].  The service never builds one: the return type
    of [generateVideoFromImage] is [string]. *)
Record GenerateVideoResult := { url : string; blob : Blob }.

End Types.

(** ** [App.tsx]: the component state and the handlers that call the service *)

Module App.

(** ['initializing' | 'key_needed' | 'ready' | 'error']. *)
Inductive AppState := initializing | key_needed | ready | error_state.

(** What a piece of component state can hold at run time. *)
Inductive JsValue :=
| VUndefined
| VNull
| VString (s : string)
| VNumber (n : Z)
| VBlob (b : Blob)
| VFunction (name : string).

(** Members a string primitive inherits from [String.prototype] and
    [Object.prototype]. *)
Definition string_members : list string :=
  [ "at"; "charAt"; "charCodeAt"; "codePointAt"; "concat"; "constructor";
    "endsWith"; "includes"; "indexOf"; "lastIndexOf"; "localeCompare";
    "match"; "matchAll"; "normalize"; "padEnd"; "padStart"; "repeat";
    "replace"; "replaceAll"; "search"; "slice"; "split"; "startsWith";
    "substring"; "toLowerCase"; "toUpperCase"; "toString"; "trim";
    "trimEnd"; "trimStart"; "valueOf"; "hasOwnProperty"; "isPrototypeOf";
    "propertyIsEnumerable"; "toLocaleString" ].

(** [s.prop] on a string primitive [s] (index properties apart, which the
    code never reads): [length], an inherited member, or [undefined]. *)
Definition string_get (s : string) (prop : string) : JsValue :=
  if (prop =? "length")%string then VNumber (Z.of_nat (String.length s))
  else if existsb (String.eqb prop) string_members then VFunction prop
  else VUndefined.

(** Truthiness of a value, as tested by [a && b] in the render. *)
Definition truthy_value (v : JsValue) : bool :=
  match v with
  | VUndefined | VNull => false
  | VString s => negb (s =? "")%string
  | VNumber n => negb (n =? 0)%Z
  | VBlob _ | VFunction _ => true
  end.

Record State := {
  imageBase64 : option string;
  prompt : string;
  aspectRatio : AspectRatio;
  isLoading : bool;
  generatedVideoUrl : JsValue;
  generatedVideoBlob : JsValue;
  error : option string;
  appState : AppState
}.

Definition setError (v : option string) (st : State) : State :=
  {| imageBase64 := imageBase64 st; prompt := prompt st;
     aspectRatio := aspectRatio st; isLoading := isLoading st;
     generatedVideoUrl := generatedVideoUrl st;
     generatedVideoBlob := generatedVideoBlob st;
     error := v; appState := appState st |}.

Definition setAppState (v : AppState) (st : State) : State :=
  {| imageBase64 := imageBase64 st; prompt := prompt st;
     aspectRatio := aspectRatio st; isLoading := isLoading st;
     generatedVideoUrl := generatedVideoUrl st;
     generatedVideoBlob := generatedVideoBlob st;
     error := error st; appState := v |}.

Definition setIsLoading (v : bool) (st : State) : State :=
  {| imageBase64 := imageBase64 st; prompt := prompt st;
     aspectRatio := aspectRatio st; isLoading := v;
     generatedVideoUrl := generatedVideoUrl st;
     generatedVideoBlob := generatedVideoBlob st;
     error := error st; appState := appState st |}.

Definition setGeneratedVideoUrl (v : JsValue) (st : State) : State :=
  {| imageBase64 := imageBase64 st; prompt := prompt st;
     aspectRatio := aspectRatio st; isLoading := isLoading st;
     generatedVideoUrl := v;
     generatedVideoBlob := generatedVideoBlob st;
     error := error st; appState := appState st |}.

Definition setGeneratedVideoBlob (v : JsValue) (st : State) : State :=
  {| imageBase64 := imageBase64 st; prompt := prompt st;
     aspectRatio := aspectRatio st; isLoading := isLoading st;
     generatedVideoUrl := generatedVideoUrl st;
     generatedVideoBlob := v;
     error := error st; appState := appState st |}.

Definition AppState_eqb (a b : AppState) : bool :=
  match a, b with
  | initializing, initializing | key_needed, key_needed
  | ready, ready | error_state, error_state => true
  | _, _ => false
  end.

(** The effect run on mount. *)
Definition init (env : Env) (st : State) : M State :=
  try_catch
    (keyIsReady <- initializeApp env ;;
     ret (setAppState (if keyIsReady then ready else key_needed) st))
    (fun err =>
       ret (setAppState error_state
              (setError
                 (Some (or_else (Some (message err))
                          "An unexpected error occurred during initialization."))
                 st))).

Definition invalid_key_message : string :=
  "The selected API key appears to be invalid. Please select another key.".

Definition handleGenerateVideo (fuel : nat) (env : Env) (st : State) : M State :=
  if negb (AppState_eqb (appState st) ready) then
    ret (setError (Some "The application is not ready. Please select an API key if prompted.") st)
  else
    match truthy (imageBase64 st) with
    | None => ret (setError (Some "Please upload an image of your monster first!") st)
    | Some image =>
        if negb (is_truthy (Some (prompt st))) then
          ret (setError (Some "Please provide a prompt to animate your monster!") st)
        else
          let st := setError None st in
          let st := setGeneratedVideoUrl VNull st in
          let st := setGeneratedVideoBlob VNull st in
          let st := setIsLoading true st in
          st <- try_catch
                  (result <- generateVideoFromImage fuel env
                               (Build_GenerateVideoParams (prompt st) image
                                  (aspectRatio st)) ;;
                   let st := setGeneratedVideoUrl (string_get result "url") st in
                   let st := setGeneratedVideoBlob (string_get result "blob") st in
                   ret st)
                  (fun e =>
                     if is_truthy (Some (message e))
                        && includes (message e) "Requested entity was not found." then
                       let st := setError (Some invalid_key_message) st in
                       ret (setAppState key_needed st)
                     else
                       ret (setError
                              (Some (or_else (Some (message e))
                                       "An unknown error occurred."))
                              st)) ;;
          ret (setIsLoading false st)
    end.

(** The render shows the video player exactly when
    [generatedVideoUrl && generatedVideoBlob] is truthy. *)
Definition shows_video (st : State) : bool :=
  truthy_value (generatedVideoUrl st) && truthy_value (generatedVideoBlob st).

End App.



From Stdlib Require DecimalString.

(** ** [App.tsx]: [handleSelectApiKey] *)

(** [openSelectKey] is how [window.aistudio.openSelectKey()] settles; the
    call itself is not written to the log. *)
Definition handleSelectApiKey (env : Env) (openSelectKey : Outcome unit)
    (st : App.State) : M App.State :=
  match aistudio env with
  | Some _ =>
      try_catch
        (_ <- settle openSelectKey ;;
         let st := App.setAppState App.ready st in
         let st := App.setError None st in
         ret st)
        (fun e =>
           let st := App.setError
                       (Some "Could not open the API key selector. Please try again.")
                       st in
           let st := App.setAppState App.error_state st in
           ret st)
  | None => ret st
  end.

(** ** [App.tsx]: the [ShareButton] component *)

Module ShareButton.

(** The error a rejected [navigator.share] carries; the handler reads its
    [name]. *)
Record ShareError := { name : string }.

Inductive ShareOutcome :=
| Shared
| ShareRejected (err : ShareError).

(** [navigator.share] and [navigator.canShare]: absent, or present with
    how the share settles and what [canShare({ files: [videoFile] })]
    answers. *)
Record Navigator := {
  share : option ShareOutcome;
  canShare : option bool
}.

Record File := {
  file_blob : Blob;
  file_name : string;
  file_type : string
}.

(** What the handler does to the page. *)
Inductive Action :=
| Share (files : list File) (title text : string)
| Download (href download : string).

(** [`monster-animation-${now}.mp4`], [now] being [Date.now()]. *)
Definition animation_name (now : Z) : string :=
  ("monster-animation-" ++ DecimalString.NilZero.string_of_int (Z.to_int now) ++ ".mp4")%string.

(** [handleShare]: the value of [shareError] it leaves and its actions.
    [now1] and [now2] are the two readings of [Date.now()]. *)
Definition handleShare (navigator : Navigator) (now1 now2 : Z)
    (videoUrl : string) (videoBlob : Blob) : option string * list Action :=
  let shareError : option string := None in
  let videoFile := {| file_blob := videoBlob;
                      file_name := animation_name now1;
                      file_type := "video/mp4" |} in
  let can :=
    match share navigator, canShare navigator with
    | Some _, Some answer => answer
    | _, _ => false
    end in
  if can then
    let request := Share [videoFile] "My Animated Monster"
                     "Check out my animated monster!" in
    match share navigator with
    | Some (ShareRejected err) =>
        if negb (name err =? "AbortError")%string then
          (Some "Sharing failed. Try the download option below.", [request])
        else (shareError, [request])
    | _ => (shareError, [request])
    end
  else
    (shareError, [Download videoUrl (animation_name now2)]).

End ShareButton.

(** ** [App.tsx]: the camera of the [ImageUploader] component *)

Module ImageUploader.

(** A media stream: its tracks, by id. *)
Definition MediaStream := list nat.

Record State := {
  isCameraOpen : bool;
  cameraError : option string;
  stream : option MediaStream
}.

Record File := {
  file_blob : Blob;
  file_name : string;
  file_type : string
}.

(** What the handlers do outside the component state. *)
Inductive Action :=
| StopTrack (track : nat)
| ImageSelect (file : File).

(** [handleFileChange]: [files] is [event.target.files]. *)
Definition handleFileChange (files : option (list File)) : list Action :=
  match files with
  | Some (file :: _) => [ImageSelect file]
  | _ => []
  end.

(** [openCamera]: [getUserMedia] is absent when the browser has no
    [navigator.mediaDevices.getUserMedia], else how the request settles. *)
Definition openCamera (getUserMedia : option (Outcome MediaStream))
    (st : State) : State :=
  let st := {| isCameraOpen := isCameraOpen st; cameraError := None;
               stream := stream st |} in
  match getUserMedia with
  | Some (Resolved mediaStream) =>
      {| isCameraOpen := true; cameraError := cameraError st;
         stream := Some mediaStream |}
  | Some (Rejected _) =>
      {| isCameraOpen := false;
         cameraError :=
           Some "Could not access the camera. Please check your browser permissions.";
         stream := stream st |}
  | None =>
      {| isCameraOpen := isCameraOpen st;
         cameraError := Some "Camera access is not supported by this browser.";
         stream := stream st |}
  end.

(** [closeCamera]. *)
Definition closeCamera (st : State) : State * list Action :=
  ({| isCameraOpen := false; cameraError := cameraError st; stream := None |},
   match stream st with
   | Some tracks => map StopTrack tracks
   | None => []
   end).

(** [`monster-capture-${now}.png`]. *)
Definition capture_name (now : Z) : string :=
  ("monster-capture-" ++ DecimalString.NilZero.string_of_int (Z.to_int now) ++ ".png")%string.

(** [takePhoto]: [refs] tells whether the video and canvas elements are
    mounted, [context] whether the canvas gave a 2d context, [captured] is
    what [canvas.toBlob] hands to its callback. *)
Definition takePhoto (refs context : bool) (captured : option Blob) (now : Z)
    (st : State) : State * list Action :=
  if refs then
    if context then
      let selected :=
        match captured with
        | Some b =>
            [ImageSelect {| file_blob := b; file_name := capture_name now;
                            file_type := "image/png" |}]
        | None => []
        end in
      let '(st', stopped) := closeCamera st in
      (st', selected ++ stopped)
    else closeCamera st
  else (st, []).

(** The cleanup of the effect on [[stream]]:
    [() => { if (stream) stream.getTracks().forEach(track => track.stop()) }],
    closed over the stream of the render that installed it. *)
Definition stream_cleanup (installed : option MediaStream) : list Action :=
  match installed with
  | Some tracks => map StopTrack tracks
  | None => []
  end.

(** The comparison of the dependency [stream] between two renders; a
    stream is told from another by its tracks. *)
Definition same_stream (a b : option MediaStream) : bool :=
  match a, b with
  | None, None => true
  | Some x, Some y => if list_eq_dec Nat.eq_dec x y then true else false
  | _, _ => false
  end.

(** A handler's update followed by the render it causes: when the update
    has changed [stream], React runs the cleanup installed by the render
    before it, on the stream of that render. *)
Definition committed (before : State) (update : State * list Action)
  : State * list Action :=
  let '(st', actions) := update in
  (st',
   actions ++
   (if same_stream (stream before) (stream st') then []
    else stream_cleanup (stream before))).

End ImageUploader.
(** * Vocabulary of the statements

    Names for the pieces of a run of [generateVideoFromImage], each read
    off the source lines it stands for, and the sample worlds of the
    concrete runs. *)

(** [!operation.done] holds. *)
Definition not_done (operation : Operation) : Prop :=
  truthy_flag (done operation) = false.

(** One wait and one poll per submitted handle. *)
Definition poll_events (key : string) (handles : list Operation) : list Event :=
  flat_map (fun h => [SetTimeout 10000; GetVideosOperation key h]) handles.

(** The handles carried by the poll requests of a log. *)
Fixpoint poll_handles (log : list Event) : list Operation :=
  match log with
  | [] => []
  | GetVideosOperation _ h :: rest => h :: poll_handles rest
  | _ :: rest => poll_handles rest
  end.

(** The events of the loop body. *)
Definition is_wait_or_poll (e : Event) : bool :=
  match e with
  | SetTimeout _ | GetVideosOperation _ _ => true
  | _ => false
  end.

(** [apiKey = data.apiKey]. *)
Definition store_key (key : string) (w : World) : World :=
  {| apiKey := Some key; isInitialized := isInitialized w;
     timers := timers w; nextTimerId := nextTimerId w |}.

(** The state after [setInterval]. *)
Definition start_timer (w : World) : World :=
  {| apiKey := apiKey w; isInitialized := isInitialized w;
     timers := nextTimerId w :: timers w; nextTimerId := S (nextTimerId w) |}.

(** The state after [clearInterval(id)]. *)
Definition stop_timer (id : nat) (w : World) : World :=
  {| apiKey := apiKey w; isInitialized := isInitialized w;
     timers := remove Nat.eq_dec id (timers w);
     nextTimerId := nextTimerId w |}.

(** The state the [catch] block leaves for the error it re-throws. *)
Definition on_error (env : Env) (error : JsError) (w : World) : World :=
  if negb (isAiStudio env) && is_truthy (Some (message error))
     && includes (message error) "permission"
  then {| apiKey := None; isInitialized := false;
          timers := timers w; nextTimerId := nextTimerId w |}
  else w.

(** The request the create call is made with. *)
Definition request_of (params : GenerateVideoParams) : VideosRequest :=
  {| model := "veo-3.1-fast-generate-preview";
     request_prompt := prompt params;
     imageBytes := imageBase64 params;
     mimeType := "image/png";
     numberOfVideos := 1;
     resolution := "720p";
     request_aspectRatio := aspectRatio params |}.

(** The events up to the entry of the loop. *)
Definition opening (key : string) (params : GenerateVideoParams) (id : nat)
  : list Event :=
  [ LoadingMessage "Initializing animation sequence...";
    GenerateVideos key (request_of params);
    SetInterval id 5000;
    LoadingMessage "The animation portal is open. Generating video..." ].

(** The events between the loop and the download. *)
Definition closing (id : nat) : list Event :=
  [ ClearInterval id; LoadingMessage "Finalizing your video..." ].

(** Outcome and events of the download of a completed operation. *)
Definition download (env : Env) (key : string) (operation : Operation)
  : Result string * list Event :=
  match truthy (uri operation) with
  | None =>
      (Throw (Error "Video generation failed to produce a download link."), [])
  | Some downloadLink =>
      let url := (downloadLink ++ "&key=" ++ key)%string in
      match fetchVideo env url with
      | Rejected e => (Throw e, [FetchVideo url])
      | Resolved response =>
          if ok response then
            match blob response with
            | Rejected e => (Throw e, [FetchVideo url])
            | Resolved videoBlob =>
                (Ret (createObjectURL env videoBlob),
                 [FetchVideo url; CreateObjectURL videoBlob])
            end
          else
            match text response with
            | Rejected e => (Throw e, [FetchVideo url])
            | Resolved errorBody =>
                (Throw (Error ("Failed to download the generated video. Status: "
                               ++ statusText response ++ ". Details: "
                               ++ errorBody)%string),
                 [FetchVideo url])
            end
      end
  end.

(** Two runs are the same up to the bracketing of their logs. *)
Ltac same_run :=
  cbn -[remove];
  repeat (rewrite app_nil_r || rewrite <- app_assoc);
  cbn -[remove];
  reflexivity.

(** [isInitialized = b]. *)
Definition mark_initialized (b : bool) (w : World) : World :=
  {| apiKey := apiKey w; isInitialized := b;
     timers := timers w; nextTimerId := nextTimerId w |}.

Definition is_fetch_video (e : Event) : bool :=
  match e with
  | FetchVideo _ => true
  | _ => false
  end.

Definition is_fetch_key (e : Event) : bool :=
  match e with
  | FetchKey => true
  | _ => false
  end.

(** ** Sample worlds *)

Definition sample_params : GenerateVideoParams :=
  {| prompt := "Make the monster dance";
     imageBase64 := "iVBORw0KGgo=";
     aspectRatio := Landscape_16_9 |}.

(** The operation as the create call returns it, a poll response still
    running, and the two ways an operation completes. *)
Definition created_op : Operation :=
  {| name := "operations/42"; done := None; uri := None |}.

Definition running_op : Operation :=
  {| name := "operations/42"; done := Some false; uri := None |}.

Definition finished_op : Operation :=
  {| name := "operations/42"; done := Some true;
     uri := Some "https://videos.example/42?alt=media" |}.

Definition filtered_op : Operation :=
  {| name := "operations/42"; done := Some true; uri := None |}.

Definition video_ok : VideoResponse :=
  {| ok := true; statusText := "OK"; text := Resolved "";
     blob := Resolved {| bytes := "mp4" |} |}.

Definition video_forbidden : VideoResponse :=
  {| ok := false; statusText := "Forbidden"; text := Resolved "denied";
     blob := Resolved {| bytes := "" |} |}.

Definition key_served : KeyResponse :=
  {| key_ok := true; key_status := 200;
     key_text := Resolved "{}"; json_apiKey := Resolved (Some "K1") |}.

Definition key_refused : KeyResponse :=
  {| key_ok := false; key_status := 500;
     key_text := Resolved "{}"; json_apiKey := Resolved None |}.

(** First poll still running, every later one [last]. *)
Definition two_polls (last : Outcome Operation) (n : nat) : Outcome Operation :=
  match n with
  | O => Resolved running_op
  | S _ => last
  end.

(** A production page (no [window.aistudio]). *)
Definition production (key : Outcome KeyResponse) (create : Outcome Operation)
    (polls : nat -> Outcome Operation) (video : Outcome VideoResponse) : Env :=
  {| aistudio := None;
     API_KEY := None;
     fetchKey := key;
     generateVideos := create;
     getVideosOperation := polls;
     fetchVideo := fun _ => video;
     createObjectURL := fun b => ("blob:" ++ bytes b)%string |}.

(** A page inside AI Studio. *)
Definition studio (hasKey : Outcome bool) (selected : option string)
    (create : Outcome Operation) : Env :=
  {| aistudio := Some hasKey;
     API_KEY := selected;
     fetchKey := Rejected (Error "Failed to fetch");
     generateVideos := create;
     getVideosOperation := two_polls (Resolved finished_op);
     fetchVideo := fun _ => Resolved video_ok;
     createObjectURL := fun b => ("blob:" ++ bytes b)%string |}.

(** The module as loaded, and after a successful [initializeApp] in
    production. *)
Definition fresh_world : World :=
  {| apiKey := None; isInitialized := false; timers := []; nextTimerId := 1 |}.

Definition ready_world : World :=
  {| apiKey := Some "K1"; isInitialized := true; timers := [];
     nextTimerId := 1 |}.

(** The component with an image chosen, ready to generate. *)
Definition ready_ui : App.State :=
  {| App.imageBase64 := Some "iVBORw0KGgo=";
     App.prompt := "Make the monster dance";
     App.aspectRatio := Landscape_16_9;
     App.isLoading := false;
     App.generatedVideoUrl := App.VNull;
     App.generatedVideoBlob := App.VNull;
     App.error := None;
     App.appState := App.ready |}.

(** The request [initializeApp] makes before it asks for the key. *)
Definition preflight (env : Env) : list Event :=
  if isAiStudio env then [HasSelectedApiKey] else [].

(** The video service refuses the create call for lack of permission. *)
Definition permission_denied : JsError :=
  Error "The caller does not have permission".


(** ** Sessions of the service module *)

(** [apiKey = null; isInitialized = false], the two assignments of the
    [catch] block. *)
Definition invalidate (w : World) : World :=
  {| apiKey := None; isInitialized := false;
     timers := timers w; nextTimerId := nextTimerId w |}.

(** The state a settled [try] block leaves: the [catch] block runs only
    for a thrown error. *)
Definition settle_world (env : Env) (r : Result string) (w : World) : World :=
  match r with
  | Throw e => on_error env e w
  | _ => w
  end.

Definition not_initialized : JsError :=
  Error "Application is not initialized. Please select an API key if prompted.".

(** The two exported operations, as a caller can invoke them. *)
Inductive Call :=
| CallInitializeApp
| CallGenerateVideo (fuel : nat) (params : GenerateVideoParams).

(** The module state after one call. *)
Definition after (env : Env) (c : Call) (w : World) : World :=
  match c with
  | CallInitializeApp => snd (fst (initializeApp env w))
  | CallGenerateVideo fuel params =>
      snd (fst (generateVideoFromImage fuel env params w))
  end.

(** The module state after a sequence of calls, each with what the
    outside answers during it. *)
Fixpoint session (calls : list (Env * Call)) (w : World) : World :=
  match calls with
  | [] => w
  | (env, c) :: rest => session rest (after env c w)
  end.

(** The cache is [null] or a non-empty string. *)
Definition cache_ok (w : World) : Prop := apiKey w <> Some "".

(** Active timer ids are distinct and below the next id to be given. *)
Definition timers_fresh (w : World) : Prop :=
  NoDup (timers w) /\ Forall (fun id => id < nextTimerId w) (timers w).

(** An initialized module holds a key. *)
Definition ready_implies_cached (w : World) : Prop :=
  isInitialized w = true -> exists key, truthy (apiKey w) = Some key.

(** The request [e] is made with [key]: as [apiKey] of the client for the
    create call and the polls, as the [key] parameter of the download. *)
Definition uses_key (key : string) (e : Event) : Prop :=
  match e with
  | GenerateVideos k _ => k = key
  | GetVideosOperation k _ => k = key
  | FetchVideo url => exists link, url = (link ++ "&key=" ++ key)%string
  | _ => True
  end.

(** The state of the module as loaded, with any timers of the page. *)
Definition loaded (w : World) : Prop :=
  apiKey w = None /\ isInitialized w = false.

(** Every call of the sequence is made on a production page. *)
Definition in_production (calls : list (Env * Call)) : Prop :=
  Forall (fun c => isAiStudio (fst c) = false) calls.

(** A remote service that answers every poll and never reports [done]. *)
Definition never_done (env : Env) : Prop :=
  forall n, exists operation,
    getVideosOperation env n = Resolved operation /\ not_done operation.

(** [messageIndex] after the interval callback has fired [n] times. *)
Fixpoint messageIndex_after (n : nat) : nat :=
  match n with
  | O => 0
  | S m => snd (rotate_message (messageIndex_after m))
  end.

(** A page whose video service answers every poll with [running_op]. *)
Definition stuck : Env :=
  production (Resolved key_served) (Resolved created_op)
    (fun _ => Resolved running_op) (Resolved video_ok).


(** The component as mounted in AI Studio before a key is selected, with
    an image chosen. *)
Definition mounted_ui : App.State :=
  {| App.imageBase64 := Some "iVBORw0KGgo=";
     App.prompt := "Make the monster dance";
     App.aspectRatio := Landscape_16_9;
     App.isLoading := false;
     App.generatedVideoUrl := App.VNull;
     App.generatedVideoBlob := App.VNull;
     App.error := None;
     App.appState := App.initializing |}.

(** The condition of the [catch] block on how the call ended:
    [!isAiStudio() && error.message && error.message.includes('permission')]
    for the error thrown. *)
Definition permission_failure (env : Env) (r : Result string) : bool :=
  negb (isAiStudio env) &&
  match r with
  | Throw e => includes (message e) "permission"
  | _ => false
  end.

(** Every call of the sequence is a call of [generateVideoFromImage]. *)
Definition only_generate (calls : list (Env * Call)) : Prop :=
  Forall (fun c => exists fuel params, snd c = CallGenerateVideo fuel params)
    calls.
(** * Properties *)

(** ** Strings *)

Lemma prefix_iff_app (p s : string) :
  prefix p s = true <-> exists t, s = (p ++ t)%string.
Proof.
  revert s; induction p as [|c p IH]; intros s.
  - split; [intros _; exists s; reflexivity | destruct s; reflexivity].
  - destruct s as [|d s]; simpl.
    + split; [discriminate | intros [t Ht]; discriminate].
    + destruct (Ascii.ascii_dec c d) as [->|Hne].
      * rewrite IH. split; intros [t Ht]; exists t; congruence.
      * split; [discriminate | intros [t Ht]; congruence].
Qed.

Lemma includes_unfold (hay needle : string) :
  includes hay needle =
    if prefix needle hay then true
    else match hay with
         | EmptyString => false
         | String _ rest => includes rest needle
         end.
Proof. destruct hay; reflexivity. Qed.

(** [includes] is the substring test. *)
Lemma includes_iff (hay needle : string) :
  includes hay needle = true <->
  exists a b, hay = (a ++ needle ++ b)%string.
Proof.
  induction hay as [|c hay IH]; rewrite includes_unfold.
  - destruct (prefix needle "") eqn:Hp.
    + apply prefix_iff_app in Hp as [t Ht].
      split; [intros _; exists "", t; exact Ht | reflexivity].
    + split; [discriminate|].
      intros [a [b Hab]]. destruct a; [|discriminate].
      assert (prefix needle "" = true) by (apply prefix_iff_app; eauto).
      congruence.
  - destruct (prefix needle (String c hay)) eqn:Hp.
    + apply prefix_iff_app in Hp as [t Ht].
      split; [intros _; exists "", t; exact Ht | reflexivity].
    + rewrite IH. split.
      * intros [a [b Hab]]. exists (String c a), b. simpl. congruence.
      * intros [a [b Hab]]. destruct a as [|d a].
        -- assert (prefix needle (String c hay) = true)
             by (apply prefix_iff_app; eauto).
           congruence.
        -- simpl in Hab. injection Hab as _ Hab. eauto.
Qed.

Lemma includes_nonempty (hay needle : string) :
  needle <> "" -> includes hay needle = true -> hay <> "".
Proof.
  intros Hn Hi ->. simpl in Hi.
  destruct needle; [congruence|discriminate].
Qed.

(** ** The poll loop *)

Lemma poll_loop_at_done env fuel n key op w :
  truthy_flag (done op) = true ->
  poll_loop env fuel n key op w = (Ret op, w, []).
Proof.
  intros H. destruct fuel; simpl; rewrite H; reflexivity.
Qed.

Lemma poll_loop_step env fuel n key op w :
  not_done op ->
  poll_loop env (S fuel) n key op w =
    match getVideosOperation env n with
    | Resolved op' =>
        let '(r, w', l) := poll_loop env fuel (S n) key op' w in
        (r, w', SetTimeout 10000 :: GetVideosOperation key op :: l)
    | Rejected e =>
        (Throw e, w, [SetTimeout 10000; GetVideosOperation key op])
    end.
Proof.
  intros H. simpl. rewrite H.
  unfold bind, emit, await.
  destruct (getVideosOperation env n); [|reflexivity].
  destruct (poll_loop env fuel (S n) key a w) as [[r w'] l]. reflexivity.
Qed.

(** The loop touches neither the module variables nor the timers. *)
Lemma poll_loop_world env fuel : forall n key op w,
  snd (fst (poll_loop env fuel n key op w)) = w.
Proof.
  induction fuel as [|fuel IH]; intros n key op w.
  - simpl. destruct (truthy_flag (done op)); reflexivity.
  - destruct (truthy_flag (done op)) eqn:Hd.
    + rewrite poll_loop_at_done by exact Hd. reflexivity.
    + rewrite poll_loop_step by exact Hd.
      destruct (getVideosOperation env n); [|reflexivity].
      specialize (IH (S n) key a w).
      destruct (poll_loop env fuel (S n) key a w) as [[r w'] l]. exact IH.
Qed.

Lemma last_cons {A} (l : list A) : forall a d, last (a :: l) d = last l a.
Proof.
  induction l as [|b l IH]; intros a d; [reflexivity|].
  change (last (a :: b :: l) d) with (last (b :: l) d).
  rewrite (IH b d), (IH b a). reflexivity.
Qed.

(** As long as the responses [rs] resolve and every operation seen
    before the last is not done, the loop makes exactly one wait and one
    poll per operation seen before the last, and goes on from the last. *)
Lemma poll_loop_unroll env key : forall rs n op fuel w,
  (forall i r, nth_error rs i = Some r ->
               getVideosOperation env (n + i) = Resolved r) ->
  Forall not_done (removelast (op :: rs)) ->
  length rs <= fuel ->
  poll_loop env fuel n key op w =
    let '(r, w', l) :=
      poll_loop env (fuel - length rs) (n + length rs) key (last rs op) w in
    (r, w', poll_events key (removelast (op :: rs)) ++ l).
Proof.
  induction rs as [|r0 rs IH]; intros n op fuel w Hres Hnd Hfuel.
  - simpl. rewrite Nat.sub_0_r, Nat.add_0_r.
    destruct (poll_loop env fuel n key op w) as [[r w'] l]. reflexivity.
  - destruct fuel as [|fuel]; [simpl in Hfuel; lia|].
    change (removelast (op :: r0 :: rs)) with (op :: removelast (r0 :: rs)) in *.
    inversion Hnd as [|? ? Hop Hrest]; subst.
    rewrite poll_loop_step by exact Hop.
    rewrite <- (Nat.add_0_r n) at 1. rewrite (Hres 0 r0 eq_refl).
    rewrite (IH (S n) r0 fuel w).
    + replace (S n + length rs) with (n + length (r0 :: rs)) by (simpl; lia).
      replace (S fuel - length (r0 :: rs)) with (fuel - length rs) by (simpl; lia).
      replace (last (r0 :: rs) op) with (last rs r0).
      * destruct (poll_loop env (fuel - length rs) (n + length (r0 :: rs)) key
                    (last rs r0) w) as [[r w'] l].
        reflexivity.
      * symmetry. apply last_cons.
    + intros i r Hi. replace (S n + i) with (n + S i) by lia.
      apply Hres. exact Hi.
    + exact Hrest.
    + simpl in Hfuel. lia.
Qed.

(** The log of the loop is a run of wait-and-poll pairs: the first poll
    carries the operation the loop was entered with, each later one the
    response to the poll before it. *)
Lemma poll_loop_log env key : forall fuel n op w,
  exists hs,
    snd (poll_loop env fuel n key op w) = poll_events key hs /\
    forall i h, nth_error hs i = Some h ->
      match i with
      | O => h = op
      | S j => getVideosOperation env (n + j) = Resolved h
      end.
Proof.
  induction fuel as [|fuel IH]; intros n op w.
  - exists []. split.
    + simpl. destruct (truthy_flag (done op)); reflexivity.
    + intros [|i] h Hi; discriminate.
  - destruct (truthy_flag (done op)) eqn:Hd.
    + exists []. rewrite poll_loop_at_done by exact Hd.
      split; [reflexivity | intros [|i] h Hi; discriminate].
    + rewrite poll_loop_step by exact Hd.
      destruct (getVideosOperation env n) as [op'|e] eqn:Hp.
      * destruct (IH (S n) op' w) as [hs [Hlog Hch]].
        destruct (poll_loop env fuel (S n) key op' w) as [[r w'] l].
        simpl in Hlog. subst l.
        exists (op :: hs). split; [reflexivity|].
        intros [|[|j]] h Hi; simpl in Hi.
        -- congruence.
        -- rewrite Nat.add_0_r. specialize (Hch 0 h Hi). simpl in Hch.
           congruence.
        -- specialize (Hch (S j) h Hi). simpl in Hch.
           replace (n + S j) with (S (n + j)) by lia. exact Hch.
      * exists [op]. split; [reflexivity|].
        intros [|[|j]] h Hi; simpl in Hi; try discriminate. congruence.
Qed.

(** The loop returns only an operation whose [done] flag is truthy. *)
Lemma poll_loop_returns_done env key : forall fuel n op w op' w' l,
  poll_loop env fuel n key op w = (Ret op', w', l) ->
  truthy_flag (done op') = true.
Proof.
  induction fuel as [|fuel IH]; intros n op w op' w' l H.
  - simpl in H. destruct (truthy_flag (done op)) eqn:Hd; [|discriminate].
    unfold ret in H. congruence.
  - destruct (truthy_flag (done op)) eqn:Hd.
    + rewrite poll_loop_at_done in H by exact Hd. congruence.
    + rewrite poll_loop_step in H by exact Hd.
      destruct (getVideosOperation env n) as [op1|e]; [|discriminate].
      destruct (poll_loop env fuel (S n) key op1 w) as [[r w1] l1] eqn:E.
      injection H as -> -> _. eapply IH. exact E.
Qed.

Lemma poll_events_app key hs1 hs2 :
  poll_events key (hs1 ++ hs2) = poll_events key hs1 ++ poll_events key hs2.
Proof. unfold poll_events. apply flat_map_app. Qed.

Lemma poll_handles_app l1 l2 :
  poll_handles (l1 ++ l2) = poll_handles l1 ++ poll_handles l2.
Proof.
  induction l1 as [|e l1 IH]; [reflexivity|].
  destruct e; simpl; rewrite IH; reflexivity.
Qed.

Lemma poll_handles_events key hs : poll_handles (poll_events key hs) = hs.
Proof. induction hs as [|h hs IH]; simpl; congruence. Qed.

Lemma filter_poll_events key hs :
  filter is_wait_or_poll (poll_events key hs) = poll_events key hs.
Proof. induction hs as [|h hs IH]; simpl; congruence. Qed.

(** ** [getApiKey] *)

Lemma isAiStudio_false env : isAiStudio env = false -> aistudio env = None.
Proof. unfold isAiStudio. destruct (aistudio env); [discriminate|reflexivity]. Qed.

Lemma truthy_Some v s : truthy v = Some s -> v = Some s /\ s <> "".
Proof.
  unfold truthy. destruct v as [t|]; [|discriminate].
  destruct (String.eqb_spec t ""); [discriminate|].
  intros [= ->]. split; [reflexivity|assumption].
Qed.

Lemma truthy_nonempty s : s <> "" -> truthy (Some s) = Some s.
Proof.
  intros H. unfold truthy. destruct (String.eqb_spec s ""); congruence.
Qed.

(** In AI Studio [getApiKey] reads [process.env.API_KEY] and nothing else. *)
Lemma getApiKey_studio env w :
  isAiStudio env = true ->
  getApiKey env w =
    (match truthy (API_KEY env) with
     | Some key => Ret key
     | None => Throw (Error DEV_KEY_MISSING)
     end, w, []).
Proof.
  intros H. unfold getApiKey. rewrite H.
  destruct (truthy (API_KEY env)); reflexivity.
Qed.

(** In production a truthy cache is returned without any request. *)
Lemma getApiKey_cached env w key :
  isAiStudio env = false ->
  truthy (apiKey w) = Some key ->
  getApiKey env w = (Ret key, w, []).
Proof.
  intros H Hc. unfold getApiKey, bind, read. rewrite H, Hc. reflexivity.
Qed.

(** In production an empty cache leads to exactly one request; the cache
    is written only when the call resolves, with the key it resolves to. *)
Lemma getApiKey_fetch env w :
  isAiStudio env = false ->
  truthy (apiKey w) = None ->
  (exists key, key <> "" /\
     getApiKey env w = (Ret key, store_key key w, [FetchKey])) \/
  (exists e, getApiKey env w = (Throw e, w, [FetchKey])).
Proof.
  intros H Hc.
  unfold getApiKey, bind, read, await, settle, throw, ret, set_apiKey.
  rewrite H, Hc.
  destruct (fetchKey env) as [response|e]; [|right; eauto].
  destruct (key_ok response); simpl.
  - destruct (json_apiKey response) as [v|e]; [|right; eauto].
    destruct (truthy v) as [key|] eqn:Hv; [|right; eauto].
    left. exists key. split; [apply truthy_Some in Hv; tauto | reflexivity].
  - destruct (key_text response); right; eauto.
Qed.

(** Every outcome of [getApiKey], in one statement. *)
Lemma getApiKey_cases env w :
  exists r w1 l1,
    getApiKey env w = (r, w1, l1) /\
    (l1 = [] \/ l1 = [FetchKey]) /\
    r <> Pending /\
    timers w1 = timers w /\ nextTimerId w1 = nextTimerId w /\
    isInitialized w1 = isInitialized w /\
    (apiKey w1 = apiKey w \/
     truthy (apiKey w) = None /\ exists key, r = Ret key /\ apiKey w1 = Some key).
Proof.
  destruct (isAiStudio env) eqn:Hs.
  - rewrite getApiKey_studio by exact Hs.
    do 3 eexists. split; [reflexivity|].
    repeat split; auto. destruct (truthy (API_KEY env)); discriminate.
  - destruct (truthy (apiKey w)) as [key|] eqn:Hc.
    + rewrite (getApiKey_cached env w key) by assumption.
      do 3 eexists. split; [reflexivity|]. repeat split; auto. discriminate.
    + destruct (getApiKey_fetch env w Hs Hc) as [[key [Hk E]]|[e E]];
        rewrite E; do 3 eexists; (split; [reflexivity|]);
        repeat split; auto; try discriminate.
      right. split; [reflexivity|]. exists key. split; reflexivity.
Qed.

(** ** [generateVideoFromImage], stage by stage *)

Lemma download_not_pending env key op : fst (download env key op) <> Pending.
Proof.
  unfold download.
  destruct (truthy (uri op)); [|discriminate].
  destruct (fetchVideo env _) as [response|]; [|discriminate].
  destruct (ok response).
  - destruct (blob response); discriminate.
  - destruct (text response); discriminate.
Qed.

Lemma generate_not_initialized fuel env params w :
  isInitialized w = false ->
  generateVideoFromImage fuel env params w =
    (Throw (Error "Application is not initialized. Please select an API key if prompted."),
     w, []).
Proof.
  intros H. unfold generateVideoFromImage, bind, read. rewrite H. reflexivity.
Qed.

Lemma generate_no_key fuel env params w e w1 l1 :
  isInitialized w = true ->
  getApiKey env w = (Throw e, w1, l1) ->
  generateVideoFromImage fuel env params w = (Throw e, w1, l1).
Proof.
  intros H Hk. unfold generateVideoFromImage, bind, read.
  rewrite H. simpl. rewrite Hk. reflexivity.
Qed.

Lemma generate_create_rejected fuel env params w key w1 l1 e :
  isInitialized w = true ->
  getApiKey env w = (Ret key, w1, l1) ->
  generateVideos env = Rejected e ->
  generateVideoFromImage fuel env params w =
    (Throw e, on_error env e w1,
     l1 ++ [LoadingMessage "Initializing animation sequence...";
            GenerateVideos key (request_of params)]).
Proof.
  intros H Hk Hc.
  unfold generateVideoFromImage, bind, try_catch, read, emit, await, throw,
    ret, set_apiKey, set_isInitialized, on_error.
  rewrite H. simpl. rewrite Hk, Hc.
  destruct (negb (isAiStudio env) && is_truthy (Some (message e))
            && includes (message e) "permission"); reflexivity.
Qed.

(** Once the create call has resolved: the timer is started, the loop
    runs, and only a loop that returns leads to [clearInterval] and the
    download. *)
Lemma generate_run fuel env params w key w1 l1 op0 :
  isInitialized w = true ->
  getApiKey env w = (Ret key, w1, l1) ->
  generateVideos env = Resolved op0 ->
  generateVideoFromImage fuel env params w =
    let id := nextTimerId w1 in
    let w2 := start_timer w1 in
    match poll_loop env fuel 0 key op0 w2 with
    | (Ret operation, _, lp) =>
        let w3 := stop_timer id w2 in
        let log := l1 ++ opening key params id ++ lp ++ closing id
                      ++ snd (download env key operation) in
        match fst (download env key operation) with
        | Ret url => (Ret url, w3, log)
        | Throw e => (Throw e, on_error env e w3, log)
        | Pending => (Pending, w3, log)
        end
    | (Throw e, _, lp) =>
        (Throw e, on_error env e w2, l1 ++ opening key params id ++ lp)
    | (Pending, _, lp) =>
        (Pending, w2, l1 ++ opening key params id ++ lp)
    end.
Proof.
  intros H Hk Hc.
  unfold generateVideoFromImage.
  unfold bind at 1. unfold read at 1. rewrite H. cbn [negb].
  unfold bind at 1. rewrite Hk.
  unfold try_catch, bind, emit, await, setInterval, clearInterval.
  rewrite Hc. cbn zeta.
  fold (start_timer w1).
  pose proof (poll_loop_world env fuel 0 key op0 (start_timer w1)) as Hw.
  destruct (poll_loop env fuel 0 key op0 (start_timer w1)) as [[r wl] lp].
  simpl in Hw. subst wl.
  destruct r as [operation|e|].
  - unfold download, settle, throw, ret, set_apiKey, set_isInitialized, on_error.
    destruct (truthy (uri operation)) as [downloadLink|]; cbn -[remove].
    + destruct (fetchVideo env _) as [response|e]; cbn -[remove].
      * destruct (ok response); cbn -[remove].
        -- destruct (blob response) as [videoBlob|e]; cbn -[remove].
           ++ same_run.
           ++ destruct (negb (isAiStudio env) && is_truthy (Some (message e))
                        && includes (message e) "permission"); same_run.
        -- destruct (text response) as [errorBody|e]; cbn -[remove].
           ++ match goal with
              | |- context [if ?c then _ else _] => destruct c
              end; same_run.
           ++ destruct (negb (isAiStudio env) && is_truthy (Some (message e))
                        && includes (message e) "permission"); same_run.
      * destruct (negb (isAiStudio env) && is_truthy (Some (message e))
                  && includes (message e) "permission"); same_run.
    + match goal with
      | |- context [if ?c then _ else _] => destruct c
      end; same_run.
  - unfold throw, ret, set_apiKey, set_isInitialized, on_error. cbn -[remove].
    destruct (negb (isAiStudio env) && is_truthy (Some (message e))
              && includes (message e) "permission"); same_run.
  - same_run.
Qed.


(** ** The claims about the poll loop *)

(** C1, as stated, fails: the second poll answers with [done] set but
    without a video URI; the loop ends there and the call throws before
    any download request is made. *)
Lemma done_without_uri_is_not_downloaded :
  let env := production (Resolved key_served) (Resolved created_op)
               (two_polls (Resolved filtered_op)) (Resolved video_ok) in
  getVideosOperation env 1 = Resolved filtered_op /\
  truthy_flag (done filtered_op) = true /\
  fst (fst (generateVideoFromImage 5 env sample_params ready_world)) =
    Throw (Error "Video generation failed to produce a download link.") /\
  snd (generateVideoFromImage 5 env sample_params ready_world) =
     [ LoadingMessage "Initializing animation sequence...";
       GenerateVideos "K1" (request_of sample_params);
       SetInterval 1 5000;
       LoadingMessage "The animation portal is open. Generating video...";
       SetTimeout 10000; GetVideosOperation "K1" created_op;
       SetTimeout 10000; GetVideosOperation "K1" running_op;
       ClearInterval 1;
       LoadingMessage "Finalizing your video..." ] /\
  existsb is_fetch_video
    (snd (generateVideoFromImage 5 env sample_params ready_world)) = false.
Proof. intros env. repeat apply conj; vm_compute; reflexivity. Qed.

(** C1, amended.  Let the create call resolve to [op0] and the first polls
    to [rs], every operation seen before the last of them having no truthy
    [done].  Then the call has made exactly one wait and one poll per
    operation seen before the last, and
    - if the last one has [done] set, the loop makes no further poll: the
      interval is cleared and the call goes on to the download step, which
      requests the blob when the operation carries a video URI and throws
      without any request when it does not;
    - if it has not, the loop waits and polls again. *)
Theorem poll_loop_ends_exactly_at_done
    fuel env params w key w1 l1 op0 rs :
  isInitialized w = true ->
  getApiKey env w = (Ret key, w1, l1) ->
  generateVideos env = Resolved op0 ->
  (forall i r, nth_error rs i = Some r ->
               getVideosOperation env i = Resolved r) ->
  Forall not_done (removelast (op0 :: rs)) ->
  length rs < fuel ->
  let seen := last rs op0 in
  let id := nextTimerId w1 in
  let polls := poll_events key (removelast (op0 :: rs)) in
  let run := generateVideoFromImage fuel env params w in
  if truthy_flag (done seen) then
    fst (fst run) = fst (download env key seen) /\
    snd run = l1 ++ opening key params id ++ polls ++ closing id
                 ++ snd (download env key seen) /\
    match truthy (uri seen) with
    | Some link =>
        exists rest,
          snd (download env key seen) =
            FetchVideo (link ++ "&key=" ++ key)%string :: rest
    | None =>
        download env key seen =
          (Throw (Error "Video generation failed to produce a download link."),
           [])
    end
  else
    exists rest,
      snd run = l1 ++ opening key params id ++ polls
                   ++ [SetTimeout 10000; GetVideosOperation key seen] ++ rest.
Proof.
  intros Hi Hk Hc Hres Hnd Hfuel seen id polls run.
  subst run. rewrite (generate_run fuel env params w key w1 l1 op0 Hi Hk Hc).
  cbn zeta.
  rewrite (poll_loop_unroll env key rs 0 op0 fuel (start_timer w1));
    [|exact Hres|exact Hnd|lia].
  fold seen. cbn [Nat.add].
  destruct (truthy_flag (done seen)) eqn:Hd.
  - rewrite poll_loop_at_done by exact Hd.
    rewrite app_nil_r. fold polls. fold id.
    split; [|split].
    + destruct (fst (download env key seen)); reflexivity.
    + destruct (fst (download env key seen)); reflexivity.
    + unfold download.
      destruct (truthy (uri seen)) as [link|]; [|reflexivity].
      destruct (fetchVideo env _) as [response|e];
        [|eexists; reflexivity].
      destruct (ok response).
      * destruct (blob response); eexists; reflexivity.
      * destruct (text response); eexists; reflexivity.
  - destruct (fuel - length rs) as [|fuel'] eqn:Hf; [lia|].
    rewrite poll_loop_step by exact Hd.
    fold polls. fold id.
    destruct (getVideosOperation env (length rs)) as [op'|e].
    + destruct (poll_loop env fuel' (S (length rs)) key op' (start_timer w1))
        as [[r w'] l].
      destruct r as [operation|e|].
      * eexists. destruct (fst (download env key operation));
          cbn [snd]; repeat rewrite <- app_assoc; reflexivity.
      * eexists. cbn [snd]. repeat rewrite <- app_assoc. reflexivity.
      * eexists. cbn [snd]. repeat rewrite <- app_assoc. reflexivity.
    + exists []. reflexivity.
Qed.

(** A run with two polls, the second one done with a video URI. *)
Lemma poll_loop_ends_exactly_at_done_witness :
  let env := production (Resolved key_served) (Resolved created_op)
               (two_polls (Resolved finished_op)) (Resolved video_ok) in
  isInitialized ready_world = true /\
  getApiKey env ready_world = (Ret "K1", ready_world, []) /\
  generateVideos env = Resolved created_op /\
  Forall not_done (removelast [created_op; running_op; finished_op]) /\
  fst (fst (generateVideoFromImage 5 env sample_params ready_world)) =
    Ret "blob:mp4" /\
  snd (generateVideoFromImage 5 env sample_params ready_world) =
     [ LoadingMessage "Initializing animation sequence...";
       GenerateVideos "K1" (request_of sample_params);
       SetInterval 1 5000;
       LoadingMessage "The animation portal is open. Generating video...";
       SetTimeout 10000; GetVideosOperation "K1" created_op;
       SetTimeout 10000; GetVideosOperation "K1" running_op;
       ClearInterval 1;
       LoadingMessage "Finalizing your video...";
       FetchVideo "https://videos.example/42?alt=media&key=K1";
       CreateObjectURL {| bytes := "mp4" |} ].
Proof.
  intros env.
  assert (Hnd : Forall not_done (removelast [created_op; running_op; finished_op]))
    by (repeat constructor).
  assert (Hres : forall i r, nth_error [running_op; finished_op] i = Some r ->
                             getVideosOperation env i = Resolved r).
  { intros [|[|i]] r H; simpl in H.
    - injection H as <-. reflexivity.
    - injection H as <-. reflexivity.
    - destruct i; discriminate. }
  pose proof (poll_loop_ends_exactly_at_done 5 env sample_params ready_world
                "K1" ready_world [] created_op [running_op; finished_op]
                eq_refl eq_refl eq_refl Hres Hnd
                (le_n_S _ _ (le_n_S _ _ (le_n_S _ _ (Nat.le_0_l _))))) as H.
  cbn zeta in H. cbv beta in H.
  change (truthy_flag (done (last [running_op; finished_op] created_op)))
    with true in H.
  cbv iota in H. destruct H as [Hr [Hl _]].
  split; [reflexivity|]. split; [reflexivity|]. split; [reflexivity|].
  split; [exact Hnd|]. split.
  - rewrite Hr. reflexivity.
  - rewrite Hl. reflexivity.
Defined.

Lemma download_log_quiet env key op :
  filter is_wait_or_poll (snd (download env key op)) = [].
Proof.
  unfold download.
  destruct (truthy (uri op)); [|reflexivity].
  destruct (fetchVideo env _) as [response|]; [|reflexivity].
  destruct (ok response).
  - destruct (blob response); reflexivity.
  - destruct (text response); reflexivity.
Qed.

Lemma quiet_no_handles l :
  filter is_wait_or_poll l = [] -> poll_handles l = [].
Proof.
  induction l as [|e l IH]; [reflexivity|].
  destruct e; simpl; try exact IH; discriminate.
Qed.

(** The log of any call: events that are neither waits nor polls, then
    the wait-and-poll pairs of the loop, then again neither.  The first
    poll carries what the create call resolved to, each later poll the
    response to the poll before it. *)
Lemma generate_log_shape fuel env params w :
  exists key hs pre post,
    snd (generateVideoFromImage fuel env params w)
      = pre ++ poll_events key hs ++ post /\
    filter is_wait_or_poll pre = [] /\
    filter is_wait_or_poll post = [] /\
    forall i h, nth_error hs i = Some h ->
      match i with
      | O => generateVideos env = Resolved h
      | S j => getVideosOperation env j = Resolved h
      end.
Proof.
  assert (Hnone : forall i (h : Operation), nth_error [] i = Some h ->
            match i with
            | O => generateVideos env = Resolved h
            | S j => getVideosOperation env j = Resolved h
            end) by (intros [|i] h Hi; discriminate).
  destruct (isInitialized w) eqn:Hi.
  2:{ rewrite generate_not_initialized by exact Hi.
      exists "", [], [], []. auto. }
  destruct (getApiKey_cases env w)
    as (r & w1 & l1 & Hk & Hl1 & Hnp & _).
  assert (Hq1 : filter is_wait_or_poll l1 = [])
    by (destruct Hl1 as [-> | ->]; reflexivity).
  destruct r as [key|e|]; [| |congruence].
  2:{ rewrite (generate_no_key fuel env params w e w1 l1 Hi Hk).
      exists "", [], l1, []. rewrite app_nil_r. auto. }
  destruct (generateVideos env) as [op0|e] eqn:Hc.
  2:{ rewrite (generate_create_rejected fuel env params w key w1 l1 e Hi Hk Hc).
      eexists "", [], _, []. cbn [poll_events flat_map app snd].
      rewrite app_nil_r. split; [reflexivity|].
      rewrite filter_app, Hq1. auto. }
  rewrite (generate_run fuel env params w key w1 l1 op0 Hi Hk Hc). cbn zeta.
  destruct (poll_loop_log env key fuel 0 op0 (start_timer w1)) as [hs [Hlog Hch]].
  destruct (poll_loop env fuel 0 key op0 (start_timer w1)) as [[r wl] lp].
  cbn [snd] in Hlog. subst lp.
  assert (Hchain : forall i h, nth_error hs i = Some h ->
            match i with
            | O => Resolved op0 = Resolved h
            | S j => getVideosOperation env j = Resolved h
            end).
  { intros i h Hih. specialize (Hch i h Hih). destruct i; [congruence|exact Hch]. }
  assert (Hpre : filter is_wait_or_poll
                   (l1 ++ opening key params (nextTimerId w1)) = [])
    by (rewrite filter_app, Hq1; reflexivity).
  destruct r as [operation|e|].
  - exists key, hs, (l1 ++ opening key params (nextTimerId w1)),
      (closing (nextTimerId w1) ++ snd (download env key operation)).
    split; [|split; [exact Hpre|split; [|exact Hchain]]].
    + destruct (fst (download env key operation)); cbn [snd];
        repeat rewrite <- app_assoc; reflexivity.
    + rewrite filter_app, download_log_quiet. reflexivity.
  - exists key, hs, (l1 ++ opening key params (nextTimerId w1)), [].
    split; [|split; [exact Hpre|split; [reflexivity|exact Hchain]]].
    cbn [snd]. rewrite app_nil_r, <- app_assoc. reflexivity.
  - exists key, hs, (l1 ++ opening key params (nextTimerId w1)), [].
    split; [|split; [exact Hpre|split; [reflexivity|exact Hchain]]].
    cbn [snd]. rewrite app_nil_r, <- app_assoc. reflexivity.
Qed.

(** C5, as stated, fails: the create call returns an operation without a
    [done] field, the first poll answers with [done: false]; the second
    poll then carries that response, not what the create call returned. *)
Lemma second_poll_carries_first_response :
  let env := production (Resolved key_served) (Resolved created_op)
               (two_polls (Resolved finished_op)) (Resolved video_ok) in
  generateVideos env = Resolved created_op /\
  poll_handles (snd (generateVideoFromImage 5 env sample_params ready_world))
    = [created_op; running_op] /\
  running_op <> created_op.
Proof.
  intros env. split; [reflexivity|]. split; [reflexivity|]. discriminate.
Qed.

(** C5, amended.  Every poll request of a call carries, unchanged, the
    operation object the remote service returned last: the first poll the
    one the create call resolved to, each later poll the one the poll
    before it resolved to. *)
Theorem poll_carries_latest_operation fuel env params w i h :
  nth_error
    (poll_handles (snd (generateVideoFromImage fuel env params w))) i = Some h ->
  match i with
  | O => generateVideos env = Resolved h
  | S j => getVideosOperation env j = Resolved h
  end.
Proof.
  destruct (generate_log_shape fuel env params w)
    as (key & hs & pre & post & Hlog & Hpre & Hpost & Hch).
  rewrite Hlog, !poll_handles_app, poll_handles_events.
  rewrite (quiet_no_handles pre Hpre), (quiet_no_handles post Hpost), app_nil_r.
  apply Hch.
Qed.

(** The second poll of a run carries the response to the first. *)
Lemma poll_carries_latest_operation_witness :
  let env := production (Resolved key_served) (Resolved created_op)
               (two_polls (Resolved finished_op)) (Resolved video_ok) in
  nth_error
    (poll_handles (snd (generateVideoFromImage 5 env sample_params ready_world)))
    1 = Some running_op /\
  getVideosOperation env 0 = Resolved running_op.
Proof.
  intros env.
  assert (H : nth_error
                (poll_handles
                   (snd (generateVideoFromImage 5 env sample_params ready_world)))
                1 = Some running_op) by reflexivity.
  split; [exact H|].
  exact (poll_carries_latest_operation 5 env sample_params ready_world 1
           running_op H).
Defined.

(** C7.  The log of every call is: events that are neither waits nor
    polls, then pairs of one wait of 10000 ms followed by one poll, then
    again events that are neither.  So the delay is the same in every
    iteration and no iteration polls twice. *)
Theorem polls_are_evenly_paced fuel env params w :
  exists key handles before after,
    snd (generateVideoFromImage fuel env params w)
      = before
        ++ flat_map (fun h => [SetTimeout 10000; GetVideosOperation key h])
             handles
        ++ after /\
    filter is_wait_or_poll before = [] /\
    filter is_wait_or_poll after = [].
Proof.
  destruct (generate_log_shape fuel env params w)
    as (key & hs & pre & post & Hlog & Hpre & Hpost & _).
  exists key, hs, pre, post. auto.
Qed.

(** ** The interval timer *)

Lemma no_clear_in_polls id key hs : ~ In (ClearInterval id) (poll_events key hs).
Proof.
  induction hs as [|h hs IH]; simpl; [tauto|].
  intros [H|[H|H]]; [discriminate|discriminate|exact (IH H)].
Qed.

Lemma on_error_timers env e w : timers (on_error env e w) = timers w.
Proof.
  unfold on_error.
  destruct (negb (isAiStudio env) && is_truthy (Some (message e))
            && includes (message e) "permission"); reflexivity.
Qed.

(** C10, as stated, fails: the download answers 403, the call throws, yet
    the timer it started has been cleared before the download. *)
Lemma download_failure_leaves_no_timer :
  let env := production (Resolved key_served) (Resolved created_op)
               (two_polls (Resolved finished_op)) (Resolved video_forbidden) in
  let run := generateVideoFromImage 5 env sample_params ready_world in
  fst (fst run) =
    Throw (Error "Failed to download the generated video. Status: Forbidden. Details: denied") /\
  In (SetInterval 1 5000) (snd run) /\
  In (ClearInterval 1) (snd run) /\
  timers (snd (fst run)) = [].
Proof.
  intros env run. split; [reflexivity|]. split; [|split; [|reflexivity]].
  - vm_compute. tauto.
  - vm_compute. tauto.
Qed.

(** C10, amended.  Let the create call resolve and the polls resolve up to
    an operation [seen], no earlier one being done.  The call has started
    its interval timer, and
    - if [seen] is done, the loop ends and [clearInterval] runs: whatever
      the call then does (return, or throw for a missing link or a failed
      download), the timer is no longer active;
    - if [seen] is not done and the next poll rejects with [e], the call
      throws [e] without [clearInterval]: the timer stays active. *)
Theorem interval_cleared_only_when_loop_ends
    fuel env params w key w1 l1 op0 rs e :
  isInitialized w = true ->
  getApiKey env w = (Ret key, w1, l1) ->
  generateVideos env = Resolved op0 ->
  (forall i r, nth_error rs i = Some r ->
               getVideosOperation env i = Resolved r) ->
  Forall not_done (removelast (op0 :: rs)) ->
  length rs < fuel ->
  (truthy_flag (done (last rs op0)) = false ->
   getVideosOperation env (length rs) = Rejected e) ->
  let id := nextTimerId w1 in
  let run := generateVideoFromImage fuel env params w in
  In (SetInterval id 5000) (snd run) /\
  if truthy_flag (done (last rs op0)) then
    In (ClearInterval id) (snd run) /\
    ~ In id (timers (snd (fst run)))
  else
    fst (fst run) = Throw e /\
    ~ In (ClearInterval id) (snd run) /\
    In id (timers (snd (fst run))).
Proof.
  intros Hi Hk Hc Hres Hnd Hfuel Hrej id run.
  subst run. rewrite (generate_run fuel env params w key w1 l1 op0 Hi Hk Hc).
  cbn zeta.
  rewrite (poll_loop_unroll env key rs 0 op0 fuel (start_timer w1));
    [|exact Hres|exact Hnd|lia].
  cbn [Nat.add]. fold id.
  assert (Hl1 : ~ In (ClearInterval id) l1).
  { destruct (getApiKey_cases env w) as (r' & w' & l' & Hk' & Hl' & _).
    rewrite Hk in Hk'. injection Hk' as _ _ <-.
    destruct Hl' as [-> | ->]; simpl; intuition discriminate. }
  destruct (truthy_flag (done (last rs op0))) eqn:Hd.
  - rewrite poll_loop_at_done by exact Hd. rewrite app_nil_r.
    set (log := l1 ++ opening key params id
                  ++ poll_events key (removelast (op0 :: rs))
                  ++ closing id ++ snd (download env key (last rs op0))).
    assert (Hset : In (SetInterval id 5000) log)
      by (apply in_or_app; right; simpl; tauto).
    assert (Hclr : In (ClearInterval id) log).
    { apply in_or_app. right. apply in_or_app. right.
      apply in_or_app. right. simpl. tauto. }
    assert (Hgone : ~ In id (timers (stop_timer id (start_timer w1))))
      by (unfold stop_timer; cbn [timers]; apply remove_In).
    destruct (fst (download env key (last rs op0))) as [url|e'|];
      cbn [fst snd]; try rewrite on_error_timers; auto.
  - destruct (fuel - length rs) as [|fuel'] eqn:Hf; [lia|].
    rewrite poll_loop_step by exact Hd.
    rewrite (Hrej eq_refl). cbn [fst snd].
    split; [|split; [reflexivity|split]].
    + apply in_or_app. right. simpl. tauto.
    + intros H. apply in_app_or in H as [H|H]; [exact (Hl1 H)|].
      apply in_app_or in H as [H|H].
      * simpl in H. intuition discriminate.
      * apply in_app_or in H as [H|H].
        -- exact (no_clear_in_polls _ _ _ H).
        -- simpl in H. intuition discriminate.
    + rewrite on_error_timers. simpl. tauto.
Qed.

(** A run whose second poll rejects: the timer is left running. *)
Lemma interval_cleared_only_when_loop_ends_witness :
  let env := production (Resolved key_served) (Resolved created_op)
               (two_polls (Rejected (Error "Failed to fetch")))
               (Resolved video_ok) in
  let run := generateVideoFromImage 5 env sample_params ready_world in
  isInitialized ready_world = true /\
  getApiKey env ready_world = (Ret "K1", ready_world, []) /\
  generateVideos env = Resolved created_op /\
  Forall not_done (removelast [created_op; running_op]) /\
  getVideosOperation env 1 = Rejected (Error "Failed to fetch") /\
  fst (fst run) = Throw (Error "Failed to fetch") /\
  ~ In (ClearInterval 1) (snd run) /\
  In 1 (timers (snd (fst run))).
Proof.
  intros env run.
  assert (Hnd : Forall not_done (removelast [created_op; running_op]))
    by (repeat constructor).
  assert (Hres : forall i r, nth_error [running_op] i = Some r ->
                             getVideosOperation env i = Resolved r).
  { intros [|[|i]] r H; simpl in H; try discriminate.
    injection H as <-. reflexivity. }
  pose proof (interval_cleared_only_when_loop_ends 5 env sample_params
                ready_world "K1" ready_world [] created_op [running_op]
                (Error "Failed to fetch")
                eq_refl eq_refl eq_refl Hres Hnd
                (le_n_S _ _ (le_n_S _ _ (Nat.le_0_l _)))
                (fun _ => eq_refl)) as H.
  cbn zeta in H. cbv beta in H.
  change (truthy_flag (done (last [running_op] created_op))) with false in H.
  cbv iota in H. destruct H as [_ [Hr [Hnc Hact]]].
  split; [reflexivity|]. split; [reflexivity|]. split; [reflexivity|].
  split; [exact Hnd|]. split; [reflexivity|].
  split; [exact Hr|]. split; [exact Hnc|exact Hact].
Defined.

(** ** [initializeApp] *)

Lemma initializeApp_eq env w :
  initializeApp env w =
    match aistudio env with
    | Some (Rejected e) => (Throw e, w, [HasSelectedApiKey])
    | Some (Resolved false) =>
        (Ret false, mark_initialized false w, [HasSelectedApiKey])
    | _ =>
        match getApiKey env w with
        | (Ret _, w1, l1) =>
            (Ret true, mark_initialized true w1, preflight env ++ l1)
        | (Throw e, w1, l1) =>
            if (message e =? DEV_KEY_MISSING)%string
            then (Ret false, mark_initialized false w1, preflight env ++ l1)
            else (Throw e, w1, preflight env ++ l1)
        | (Pending, w1, l1) => (Pending, w1, preflight env ++ l1)
        end
    end.
Proof.
  unfold initializeApp, preflight, isAiStudio.
  destruct (aistudio env) as [[[|]|e]|];
    unfold bind, try_catch, await, set_isInitialized, ret, throw;
    cbn [negb]; try reflexivity.
  - destruct (getApiKey env w) as [[[key|e|] w1] l1]; try same_run.
    destruct (message e =? DEV_KEY_MISSING)%string; same_run.
  - destruct (getApiKey env w) as [[[key|e|] w1] l1]; try same_run.
    destruct (message e =? DEV_KEY_MISSING)%string; same_run.
Qed.

(** ** The credential cache *)

Lemma on_error_apiKey env e w :
  apiKey (on_error env e w) = apiKey w \/
  apiKey (on_error env e w) = None /\ isAiStudio env = false /\
  includes (message e) "permission" = true.
Proof.
  unfold on_error.
  destruct (isAiStudio env); cbn [negb andb]; [left; reflexivity|].
  destruct (is_truthy (Some (message e))); cbn [andb]; [|left; reflexivity].
  destruct (includes (message e) "permission"); [|left; reflexivity].
  right. auto.
Qed.

Lemma getApiKey_keeps_cache env w key :
  truthy (apiKey w) = Some key ->
  apiKey (snd (fst (getApiKey env w))) = Some key.
Proof.
  intros Hc. destruct (truthy_Some _ _ Hc) as [Hw _].
  destruct (getApiKey_cases env w) as (r & w1 & l1 & E & _ & _ & _ & _ & _ & H).
  rewrite E. cbn [fst snd].
  destruct H as [H|[H _]]; congruence.
Qed.

(** ** [initializeApp] and the effect run on mount *)

(** C6.  [initializeApp] returns [false], without throwing, when AI Studio
    reports that no key is selected and when [getApiKey] throws
    DEV_KEY_MISSING; it throws the very error it met when
    [hasSelectedApiKey] rejects or [getApiKey] throws anything else; and
    the effect run on mount turns a thrown error into the 'error' state
    with a message string. *)
Theorem initializeApp_tells_unselected_from_failure env w e st :
  (aistudio env = Some (Resolved false) \/
   aistudio env = Some (Rejected e) \/
   (aistudio env = None \/ aistudio env = Some (Resolved true)) /\
   fst (fst (getApiKey env w)) = Throw e) ->
  let run := initializeApp env w in
  match aistudio env with
  | Some (Resolved false) =>
      fst (fst run) = Ret false /\ isInitialized (snd (fst run)) = false
  | Some (Rejected _) => fst (fst run) = Throw e
  | _ =>
      if (message e =? DEV_KEY_MISSING)%string
      then fst (fst run) = Ret false /\ isInitialized (snd (fst run)) = false
      else fst (fst run) = Throw e
  end /\
  (fst (fst run) = Throw e ->
   exists st',
     fst (fst (App.init env st w)) = Ret st' /\
     App.appState st' = App.error_state /\
     App.error st' =
       Some (if (message e =? "")%string
             then "An unexpected error occurred during initialization."
             else message e)).
Proof.
  intros H run. subst run. split.
  - rewrite initializeApp_eq.
    destruct H as [H|[H|[[H|H] Hg]]]; rewrite H; cbn [fst snd].
    + split; reflexivity.
    + reflexivity.
    + destruct (getApiKey env w) as [[[k|e'|] w1] l1]; cbn [fst] in Hg;
        try discriminate.
      injection Hg as ->.
      destruct (message e =? DEV_KEY_MISSING)%string; cbn [fst snd]; auto.
    + destruct (getApiKey env w) as [[[k|e'|] w1] l1]; cbn [fst] in Hg;
        try discriminate.
      injection Hg as ->.
      destruct (message e =? DEV_KEY_MISSING)%string; cbn [fst snd]; auto.
  - intros Hthrow. unfold App.init, try_catch, bind, ret.
    destruct (initializeApp env w) as [[r w'] l]. cbn [fst] in Hthrow.
    subst r. cbn [fst snd App.setAppState App.setError App.appState App.error].
    eexists. split; [reflexivity|]. split; [reflexivity|].
    cbn [App.error App.appState]. unfold or_else, truthy.
    destruct (message e =? "")%string; reflexivity.
Qed.

(** No key selected in AI Studio, and an unreachable key server. *)
Lemma initializeApp_tells_unselected_from_failure_witness :
  let unselected := studio (Resolved true) None (Resolved created_op) in
  let unreachable := production (Rejected (Error "Failed to fetch"))
                       (Resolved created_op)
                       (two_polls (Resolved finished_op)) (Resolved video_ok) in
  fst (fst (getApiKey unselected fresh_world)) = Throw (Error DEV_KEY_MISSING) /\
  fst (fst (initializeApp unselected fresh_world)) = Ret false /\
  fst (fst (getApiKey unreachable fresh_world)) = Throw (Error "Failed to fetch") /\
  fst (fst (initializeApp unreachable fresh_world)) =
    Throw (Error "Failed to fetch") /\
  exists st',
    fst (fst (App.init unreachable ready_ui fresh_world)) = Ret st' /\
    App.appState st' = App.error_state /\
    App.error st' = Some "Failed to fetch".
Proof.
  intros unselected unreachable.
  destruct (initializeApp_tells_unselected_from_failure unselected fresh_world
              (Error DEV_KEY_MISSING) ready_ui
              (or_intror (or_intror (conj (or_intror eq_refl) eq_refl))))
    as [[Hfalse _] _].
  destruct (initializeApp_tells_unselected_from_failure unreachable fresh_world
              (Error "Failed to fetch") ready_ui
              (or_intror (or_intror (conj (or_introl eq_refl) eq_refl))))
    as [Hthrow Hui].
  split; [reflexivity|]. split; [exact Hfalse|]. split; [reflexivity|].
  split; [exact Hthrow|]. exact (Hui Hthrow).
Defined.

(** ** The key endpoint *)

(** C2, as stated, fails: with [GEMINI_API_KEY] set to the empty string
    the variable is set, yet both handlers answer 500. *)
Lemma empty_key_is_answered_500 :
  Server.get_key (Some "") Server.fresh_res =
    {| Server.statusCode := 500;
       Server.body :=
         Some (Server.JObject [("error", Server.not_configured)]) |} /\
  Server.app_get_key (Server.load (Some "")) Server.fresh_res =
    {| Server.statusCode := 500;
       Server.body :=
         Some (Server.JObject [("error", Server.not_configured)]) |} /\
  Server.statusCode (Server.get_key (Some "") Server.fresh_res) <> 200%Z.
Proof. repeat apply conj; try reflexivity. discriminate. Qed.

(** C2, amended.  If [GEMINI_API_KEY] is set to a non-empty string, the
    response is 200 with body [{ apiKey: <the key> }]; if it is unset or
    empty, the response is 500 with body [{ error: <message> }].  This
    holds for the serverless function and for the route of the Express
    server, which uses the value read when the server was loaded. *)
Theorem get_key_response (c : ascii) (rest : string) :
  let key := String c rest in
  let served :=
    {| Server.statusCode := 200;
       Server.body := Some (Server.JObject [("apiKey", key)]) |} in
  let refused :=
    {| Server.statusCode := 500;
       Server.body :=
         Some (Server.JObject [("error", Server.not_configured)]) |} in
  Server.get_key (Some key) Server.fresh_res = served /\
  Server.app_get_key (Server.load (Some key)) Server.fresh_res = served /\
  Server.get_key None Server.fresh_res = refused /\
  Server.app_get_key (Server.load None) Server.fresh_res = refused /\
  Server.get_key (Some "") Server.fresh_res = refused /\
  Server.app_get_key (Server.load (Some "")) Server.fresh_res = refused.
Proof. repeat apply conj; reflexivity. Qed.

(** ** [handleGenerateVideo] *)

Lemma handleGenerateVideo_settled fuel env st w image :
  App.appState st = App.ready ->
  truthy (App.imageBase64 st) = Some image ->
  App.prompt st <> "" ->
  let params := {| prompt := App.prompt st; imageBase64 := image;
                   aspectRatio := App.aspectRatio st |} in
  let cleared :=
    App.setIsLoading true
      (App.setGeneratedVideoBlob App.VNull
         (App.setGeneratedVideoUrl App.VNull (App.setError None st))) in
  App.handleGenerateVideo fuel env st w =
    match generateVideoFromImage fuel env params w with
    | (Ret result, w', l) =>
        (Ret (App.setIsLoading false
                (App.setGeneratedVideoBlob (App.string_get result "blob")
                   (App.setGeneratedVideoUrl (App.string_get result "url")
                      cleared))),
         w', l)
    | (Throw e, w', l) =>
        (Ret (App.setIsLoading false
                (if is_truthy (Some (message e))
                    && includes (message e) "Requested entity was not found."
                 then App.setAppState App.key_needed
                        (App.setError (Some App.invalid_key_message) cleared)
                 else App.setError
                        (Some (or_else (Some (message e))
                                 "An unknown error occurred."))
                        cleared)),
         w', l)
    | (Pending, w', l) => (Pending, w', l)
    end.
Proof.
  intros Hr Hi Hp params cleared.
  unfold App.handleGenerateVideo. rewrite Hr, Hi. cbn [App.AppState_eqb negb].
  replace (is_truthy (Some (App.prompt st))) with true
    by (unfold is_truthy; rewrite truthy_nonempty by exact Hp; reflexivity).
  cbn [negb]. unfold bind, try_catch, ret.
  cbn [App.prompt App.aspectRatio App.setIsLoading App.setGeneratedVideoBlob
       App.setGeneratedVideoUrl App.setError].
  fold params.
  destruct (generateVideoFromImage fuel env params w) as [[[result|e|] w'] l].
  - same_run.
  - destruct (is_truthy (Some (message e))
              && includes (message e) "Requested entity was not found.");
      same_run.
  - reflexivity.
Qed.

(** C3, as stated, fails: the create call rejects with an error whose
    message is empty; what the UI shows is the fallback text, not the
    error's own message. *)
Lemma empty_message_shows_fallback :
  let env := production (Resolved key_served) (Rejected (Error ""))
               (two_polls (Resolved finished_op)) (Resolved video_ok) in
  fst (fst (generateVideoFromImage 5 env sample_params ready_world)) =
    Throw (Error "") /\
  includes (message (Error "")) "Requested entity was not found." = false /\
  fst (fst (App.handleGenerateVideo 5 env ready_ui ready_world)) =
    Ret (App.setError (Some "An unknown error occurred.") ready_ui) /\
  Some "An unknown error occurred." <> Some (message (Error "")).
Proof.
  intros env. repeat apply conj; try reflexivity. discriminate.
Qed.

(** C3, amended.  When the generation throws an error whose message
    contains 'Requested entity was not found.', the UI shows 'The selected
    API key appears to be invalid. Please select another key.' and goes to
    the key-selection state.  For every other error the state stays
    'ready' and the UI shows the error's own message when that is not
    empty, and 'An unknown error occurred.' when it is. *)
Theorem generation_error_message fuel env st w image e w' log :
  App.appState st = App.ready ->
  truthy (App.imageBase64 st) = Some image ->
  App.prompt st <> "" ->
  generateVideoFromImage fuel env
    {| prompt := App.prompt st; imageBase64 := image;
       aspectRatio := App.aspectRatio st |} w = (Throw e, w', log) ->
  exists st',
    App.handleGenerateVideo fuel env st w = (Ret st', w', log) /\
    App.isLoading st' = false /\
    if includes (message e) "Requested entity was not found." then
      App.error st' = Some App.invalid_key_message /\
      App.appState st' = App.key_needed
    else
      App.appState st' = App.ready /\
      App.error st' =
        Some (if (message e =? "")%string
              then "An unknown error occurred."
              else message e).
Proof.
  intros Hr Hi Hp Hg.
  rewrite (handleGenerateVideo_settled fuel env st w image Hr Hi Hp).
  cbn zeta. rewrite Hg. eexists. split; [reflexivity|].
  destruct (includes (message e) "Requested entity was not found.") eqn:Hinc.
  - assert (Ht : is_truthy (Some (message e)) = true).
    { unfold is_truthy.
      rewrite truthy_nonempty; [reflexivity|].
      eapply includes_nonempty; [|exact Hinc]. discriminate. }
    rewrite Ht. cbn. auto.
  - rewrite andb_false_r. cbn. split; [reflexivity|]. split; [exact Hr|].
    unfold or_else, truthy. destruct (message e =? "")%string; reflexivity.
Qed.

(** The create call answers 404 for the key in use. *)
Lemma generation_error_message_witness :
  let env := production (Resolved key_served)
               (Rejected (Error "404: Requested entity was not found."))
               (two_polls (Resolved finished_op)) (Resolved video_ok) in
  App.appState ready_ui = App.ready /\
  truthy (App.imageBase64 ready_ui) = Some "iVBORw0KGgo=" /\
  App.prompt ready_ui <> "" /\
  exists st',
    fst (fst (App.handleGenerateVideo 5 env ready_ui ready_world)) = Ret st' /\
    App.error st' = Some App.invalid_key_message /\
    App.appState st' = App.key_needed.
Proof.
  intros env.
  assert (Hp : App.prompt ready_ui <> "") by discriminate.
  destruct (generation_error_message 5 env ready_ui ready_world "iVBORw0KGgo="
              (Error "404: Requested entity was not found.")
              ready_world
              [LoadingMessage "Initializing animation sequence...";
               GenerateVideos "K1" (request_of sample_params)]
              eq_refl eq_refl Hp eq_refl)
    as [st' [Hrun [_ Hshown]]].
  split; [reflexivity|]. split; [reflexivity|]. split; [exact Hp|].
  exists st'. split; [rewrite Hrun; reflexivity|].
  exact Hshown.
Defined.

(** * Further properties of the service module *)

Lemma on_error_cases env e w :
  on_error env e w = w \/
  on_error env e w = invalidate w /\ isAiStudio env = false /\
  includes (message e) "permission" = true.
Proof.
  unfold on_error.
  destruct (isAiStudio env); cbn [negb andb]; [left; reflexivity|].
  destruct (is_truthy (Some (message e))); cbn [andb]; [|left; reflexivity].
  destruct (includes (message e) "permission"); [|left; reflexivity].
  right. auto.
Qed.

Lemma on_error_permission env e w :
  isAiStudio env = false ->
  includes (message e) "permission" = true ->
  on_error env e w = invalidate w.
Proof.
  intros Hs Hi. unfold on_error. rewrite Hs, Hi.
  assert (Ht : is_truthy (Some (message e)) = true).
  { unfold is_truthy. rewrite truthy_nonempty; [reflexivity|].
    eapply includes_nonempty; [|exact Hi]. discriminate. }
  rewrite Ht. reflexivity.
Qed.

Lemma poll_events_use_key key hs : Forall (uses_key key) (poll_events key hs).
Proof.
  induction hs as [|h hs IH]; simpl; [constructor|].
  constructor; [exact I|]. constructor; [reflexivity|exact IH].
Qed.

Lemma poll_events_no_fetch_key key hs :
  existsb is_fetch_key (poll_events key hs) = false.
Proof. induction hs as [|h hs IH]; simpl; [reflexivity|exact IH]. Qed.

Lemma download_uses_key env key op : Forall (uses_key key) (snd (download env key op)).
Proof.
  assert (Hu : forall link,
            uses_key key (FetchVideo (link ++ "&key=" ++ key)%string))
    by (intros link; exists link; reflexivity).
  unfold download.
  destruct (truthy (uri op)) as [link|]; [|constructor].
  destruct (fetchVideo env _) as [response|]; [|repeat constructor; apply Hu].
  destruct (ok response).
  - destruct (blob response); repeat constructor; apply Hu.
  - destruct (text response); repeat constructor; apply Hu.
Qed.

Lemma download_no_fetch_key env key op :
  existsb is_fetch_key (snd (download env key op)) = false.
Proof.
  unfold download.
  destruct (truthy (uri op)); [|reflexivity].
  destruct (fetchVideo env _) as [response|]; [|reflexivity].
  destruct (ok response).
  - destruct (blob response); reflexivity.
  - destruct (text response); reflexivity.
Qed.

(** Every way a call of [generateVideoFromImage] can go: stopped by the
    guard, stopped by [getApiKey], or settled by the [try] block, whose
    requests all use the key and none of which asks for the key. *)
Lemma generate_outcome fuel env params w :
  (isInitialized w = false /\
   generateVideoFromImage fuel env params w = (Throw not_initialized, w, []))
  \/
  (isInitialized w = true /\
   exists e l1,
     getApiKey env w = (Throw e, w, l1) /\
     generateVideoFromImage fuel env params w = (Throw e, w, l1))
  \/
  (isInitialized w = true /\
   exists key w1 l1 w2 r l2,
     getApiKey env w = (Ret key, w1, l1) /\
     generateVideoFromImage fuel env params w
       = (r, settle_world env r w2, l1 ++ l2) /\
     Forall (uses_key key) l2 /\
     existsb is_fetch_key l2 = false /\
     match r with
     | Ret _ =>
         w2 = stop_timer (nextTimerId w1) (start_timer w1) /\
         In (SetInterval (nextTimerId w1) 5000) l2 /\
         In (ClearInterval (nextTimerId w1)) l2
     | Pending => w2 = start_timer w1
     | Throw _ =>
         w2 = w1 \/ w2 = start_timer w1 \/
         w2 = stop_timer (nextTimerId w1) (start_timer w1)
     end).
Proof.
  destruct (isInitialized w) eqn:Hi.
  2:{ left. split; [reflexivity|].
      apply generate_not_initialized. exact Hi. }
  right.
  destruct (getApiKey env w) as [[[key|e|] w1] l1] eqn:Hk.
  - right. split; [reflexivity|].
    destruct (generateVideos env) as [op0|e] eqn:Hc.
    + pose proof (generate_run fuel env params w key w1 l1 op0 Hi Hk Hc) as E.
      cbn zeta in E.
      destruct (poll_loop_log env key fuel 0 op0 (start_timer w1))
        as [hs [Hlog _]].
      destruct (poll_loop env fuel 0 key op0 (start_timer w1))
        as [[r wl] lp].
      cbn [snd] in Hlog. subst lp.
      destruct r as [operation|e|].
      * pose proof (download_not_pending env key operation) as Hnp.
        exists key, w1, l1, (stop_timer (nextTimerId w1) (start_timer w1)),
          (fst (download env key operation)),
          (opening key params (nextTimerId w1) ++ poll_events key hs
             ++ closing (nextTimerId w1) ++ snd (download env key operation)).
        split; [reflexivity|]. split; [|split; [|split]].
        -- rewrite E.
           destruct (fst (download env key operation)); try reflexivity.
        -- apply Forall_app. split; [repeat constructor|].
           apply Forall_app. split; [apply poll_events_use_key|].
           apply Forall_app. split; [repeat constructor|].
           apply download_uses_key.
        -- rewrite !existsb_app, poll_events_no_fetch_key,
             download_no_fetch_key. reflexivity.
        -- destruct (fst (download env key operation)); auto; [|congruence].
           split; [reflexivity|]. split.
           ++ apply in_or_app. left. cbn. tauto.
           ++ apply in_or_app. right. apply in_or_app. right.
              apply in_or_app. left. cbn. tauto.
      * exists key, w1, l1, (start_timer w1), (Throw e),
          (opening key params (nextTimerId w1) ++ poll_events key hs).
        split; [reflexivity|]. split; [|split; [|split]].
        -- rewrite E. reflexivity.
        -- apply Forall_app. split; [repeat constructor|].
           apply poll_events_use_key.
        -- rewrite existsb_app, poll_events_no_fetch_key. reflexivity.
        -- auto.
      * exists key, w1, l1, (start_timer w1), Pending,
          (opening key params (nextTimerId w1) ++ poll_events key hs).
        split; [reflexivity|]. split; [|split; [|split]].
        -- rewrite E. reflexivity.
        -- apply Forall_app. split; [repeat constructor|].
           apply poll_events_use_key.
        -- rewrite existsb_app, poll_events_no_fetch_key. reflexivity.
        -- reflexivity.
    + exists key, w1, l1, w1, (Throw e),
        [LoadingMessage "Initializing animation sequence...";
         GenerateVideos key (request_of params)].
      split; [reflexivity|]. split; [|split; [|split]].
      * apply (generate_create_rejected fuel env params w key w1 l1 e Hi Hk Hc).
      * repeat constructor.
      * reflexivity.
      * auto.
  - left. split; [reflexivity|].
    destruct (getApiKey_cases env w) as (r & w0 & l0 & E & _ & _ & _ & _ & _ & H).
    assert (w1 = w).
    { destruct (isAiStudio env) eqn:Hs.
      - rewrite getApiKey_studio in Hk by exact Hs. congruence.
      - destruct (truthy (apiKey w)) as [k|] eqn:Hc.
        + rewrite (getApiKey_cached env w k Hs Hc) in Hk. discriminate.
        + destruct (getApiKey_fetch env w Hs Hc) as [[k [_ E']]|[e' E']];
            rewrite E' in Hk; congruence. }
    subst w1. exists e, l1. split; [reflexivity|].
    apply (generate_no_key fuel env params w e w l1 Hi Hk).
  - destruct (getApiKey_cases env w) as (r & w0 & l0 & E & _ & Hnp & _).
    congruence.
Qed.

(** ** [getApiKey] *)

Lemma getApiKey_resolved env w key w1 l :
  getApiKey env w = (Ret key, w1, l) ->
  key <> "" /\
  timers w1 = timers w /\ nextTimerId w1 = nextTimerId w /\
  isInitialized w1 = isInitialized w /\
  (if isAiStudio env then w1 = w /\ l = []
   else apiKey w1 = Some key /\
        (w1 = w /\ l = [] \/
         truthy (apiKey w) = None /\ w1 = store_key key w /\ l = [FetchKey])).
Proof.
  intros Hk. destruct (isAiStudio env) eqn:Hs.
  - rewrite getApiKey_studio in Hk by exact Hs.
    destruct (truthy (API_KEY env)) as [k|] eqn:Ht; [|discriminate].
    injection Hk as <- <- <-. apply truthy_Some in Ht. tauto.
  - destruct (truthy (apiKey w)) as [k|] eqn:Hc.
    + rewrite (getApiKey_cached env w k Hs Hc) in Hk.
      injection Hk as <- <- <-. apply truthy_Some in Hc. tauto.
    + destruct (getApiKey_fetch env w Hs Hc) as [[k [Hne E]]|[e E]];
        rewrite E in Hk; [|discriminate].
      injection Hk as <- <- <-. cbn. tauto.
Qed.

Lemma getApiKey_thrown env w e w1 l :
  getApiKey env w = (Throw e, w1, l) -> w1 = w.
Proof.
  intros Hk. destruct (isAiStudio env) eqn:Hs.
  - rewrite getApiKey_studio in Hk by exact Hs. congruence.
  - destruct (truthy (apiKey w)) as [k|] eqn:Hc.
    + rewrite (getApiKey_cached env w k Hs Hc) in Hk. discriminate.
    + destruct (getApiKey_fetch env w Hs Hc) as [[k [_ E]]|[e' E]];
        rewrite E in Hk; congruence.
Qed.

(** X1.  Whatever [getApiKey] resolves to is a non-empty string, and in
    production it is what the cache holds afterwards. *)
Theorem getApiKey_resolves_to_nonempty_key env w key w1 l :
  getApiKey env w = (Ret key, w1, l) ->
  key <> "" /\ (isAiStudio env = false -> apiKey w1 = Some key).
Proof.
  intros Hk. destruct (getApiKey_resolved env w key w1 l Hk)
    as (Hne & _ & _ & _ & H).
  split; [exact Hne|]. intros Hs. rewrite Hs in H. tauto.
Qed.

(** A key served by the key server. *)
Lemma getApiKey_resolves_to_nonempty_key_witness :
  let served := production (Resolved key_served) (Resolved created_op)
                  (two_polls (Resolved finished_op)) (Resolved video_ok) in
  getApiKey served fresh_world
    = (Ret "K1", store_key "K1" fresh_world, [FetchKey]) /\
  "K1" <> "" /\
  apiKey (store_key "K1" fresh_world) = Some "K1".
Proof.
  intros served.
  destruct (getApiKey_resolves_to_nonempty_key served fresh_world "K1"
              (store_key "K1" fresh_world) [FetchKey] eq_refl) as [Hne Hc].
  split; [reflexivity|]. split; [exact Hne|]. exact (Hc eq_refl).
Defined.

(** X2.  A call of [getApiKey] makes no request at all, or exactly one
    request to the key server, and that only in production with nothing
    usable in the cache.  A call that throws leaves the module as it was,
    so a failed retrieval is not remembered. *)
Theorem getApiKey_requests_once_and_forgets_failure env w :
  (snd (getApiKey env w) = [] \/
   snd (getApiKey env w) = [FetchKey] /\ isAiStudio env = false /\
   truthy (apiKey w) = None) /\
  forall e, fst (fst (getApiKey env w)) = Throw e ->
            snd (fst (getApiKey env w)) = w.
Proof.
  split.
  - destruct (isAiStudio env) eqn:Hs.
    + rewrite getApiKey_studio by exact Hs. left. reflexivity.
    + destruct (truthy (apiKey w)) as [k|] eqn:Hc.
      * rewrite (getApiKey_cached env w k Hs Hc). left. reflexivity.
      * destruct (getApiKey_fetch env w Hs Hc) as [[k [_ E]]|[e E]];
          rewrite E; right; auto.
  - intros e He.
    destruct (getApiKey env w) as [[r w1] l] eqn:Hk. cbn [fst snd] in *.
    subst r. eapply getApiKey_thrown. exact Hk.
Qed.

(** The key server answers 500: the module stays as loaded. *)
Lemma getApiKey_requests_once_and_forgets_failure_witness :
  let refused := production (Resolved key_refused) (Resolved created_op)
                   (two_polls (Resolved finished_op)) (Resolved video_ok) in
  snd (getApiKey refused fresh_world) = [FetchKey] /\
  (exists e, fst (fst (getApiKey refused fresh_world)) = Throw e) /\
  snd (fst (getApiKey refused fresh_world)) = fresh_world.
Proof.
  intros refused.
  destruct (getApiKey_requests_once_and_forgets_failure refused fresh_world)
    as [_ Hsame].
  split; [reflexivity|]. split; [eexists; reflexivity|].
  exact (Hsame _ eq_refl).
Defined.

(** ** [initializeApp] *)

(** The state [initializeApp] leaves, by what it returns. *)
Lemma initializeApp_world env w :
  exists r w' l,
    initializeApp env w = (r, w', l) /\
    (l = [] \/ l = [HasSelectedApiKey] \/ l = [FetchKey]) /\
    match r with
    | Ret true =>
        exists key w1 l1,
          getApiKey env w = (Ret key, w1, l1) /\
          w' = mark_initialized true w1
    | Ret false =>
        w' = mark_initialized false w
    | Throw _ => w' = w
    | Pending => False
    end.
Proof.
  rewrite initializeApp_eq. unfold preflight.
  destruct (aistudio env) as [[[|]|e]|] eqn:Ha.
  - assert (Hs : isAiStudio env = true) by (unfold isAiStudio; rewrite Ha; reflexivity).
    rewrite Hs. rewrite (getApiKey_studio env w Hs).
    destruct (truthy (API_KEY env)) as [k|] eqn:Ht.
    + do 3 eexists. split; [reflexivity|]. split; [auto|].
      exists k, w, []. split; reflexivity.
    + cbn. do 3 eexists. split; [reflexivity|]. split; [auto|]. reflexivity.
  - do 3 eexists. split; [reflexivity|]. split; [auto|]. reflexivity.
  - do 3 eexists. split; [reflexivity|]. split; [auto|]. reflexivity.
  - assert (Hs : isAiStudio env = false) by (unfold isAiStudio; rewrite Ha; reflexivity).
    rewrite Hs.
    destruct (getApiKey_cases env w) as (r & w1 & l1 & E & Hl & Hnp & _).
    rewrite E. destruct r as [key|e|]; [| |congruence].
    + do 3 eexists. split; [reflexivity|]. split; [cbn; tauto|].
      exists key, w1, l1. auto.
    + pose proof (getApiKey_thrown env w e w1 l1 E) as ->.
      destruct (message e =? DEV_KEY_MISSING)%string;
        do 3 eexists; (split; [reflexivity|]); (split; [cbn; tauto|]);
        reflexivity.
Qed.

(** X6.  A call of [initializeApp] makes at most one request (to AI
    Studio or to the key server, never to the video service).  When it
    returns, [isInitialized] equals what it returned; when it throws,
    [isInitialized] keeps its old value. *)
Theorem initializeApp_flag_follows_result env w :
  (snd (initializeApp env w) = [] \/
   snd (initializeApp env w) = [HasSelectedApiKey] \/
   snd (initializeApp env w) = [FetchKey]) /\
  match fst (fst (initializeApp env w)) with
  | Ret b => isInitialized (snd (fst (initializeApp env w))) = b
  | Throw _ =>
      isInitialized (snd (fst (initializeApp env w))) = isInitialized w
  | Pending => True
  end.
Proof.
  destruct (initializeApp_world env w) as (r & w' & l & E & Hl & H).
  rewrite E. cbn [fst snd]. split; [exact Hl|].
  destruct r as [[|]|e|]; try exact I.
  - destruct H as (key & w1 & l1 & _ & ->). reflexivity.
  - subst w'. reflexivity.
  - subst w'. reflexivity.
Qed.

(** ** What a call does to the module state *)

Lemma settle_world_timers env r w :
  timers (settle_world env r w) = timers w /\
  nextTimerId (settle_world env r w) = nextTimerId w.
Proof.
  destruct r as [a|e|]; cbn [settle_world]; auto.
  destruct (on_error_cases env e w) as [-> | [-> _]]; auto.
Qed.

Lemma settle_world_cases env r w :
  settle_world env r w = w \/
  settle_world env r w = invalidate w /\ isAiStudio env = false /\
  exists e, r = Throw e /\ includes (message e) "permission" = true.
Proof.
  destruct r as [a|e|]; cbn [settle_world]; auto.
  destruct (on_error_cases env e w) as [H | [H [Hs Hi]]]; [auto|].
  right. eauto.
Qed.

Lemma fresh_id_not_active w :
  timers_fresh w -> ~ In (nextTimerId w) (timers w).
Proof.
  intros [_ Hlt] Hin. rewrite Forall_forall in Hlt.
  specialize (Hlt _ Hin). lia.
Qed.

Lemma stop_after_start_timers w :
  timers_fresh w ->
  timers (stop_timer (nextTimerId w) (start_timer w)) = timers w.
Proof.
  intros Hf. unfold stop_timer, start_timer. cbn [timers].
  rewrite remove_cons. apply notin_remove. apply fresh_id_not_active. exact Hf.
Qed.

(** The timers after a call of [generateVideoFromImage]: as before, or
    with the one the call started still active. *)
Lemma generate_timers fuel env params w :
  timers_fresh w ->
  let run := generateVideoFromImage fuel env params w in
  (timers (snd (fst run)) = timers w /\
   (nextTimerId (snd (fst run)) = nextTimerId w \/
    nextTimerId (snd (fst run)) = S (nextTimerId w)) /\
   (forall url, fst (fst run) = Ret url ->
                nextTimerId (snd (fst run)) = S (nextTimerId w)) /\
   fst (fst run) <> Pending)
  \/
  (timers (snd (fst run)) = nextTimerId w :: timers w /\
   nextTimerId (snd (fst run)) = S (nextTimerId w) /\
   forall url, fst (fst run) <> Ret url).
Proof.
  intros Hf run. subst run.
  destruct (generate_outcome fuel env params w)
    as [[_ E] | [[_ (e & l1 & _ & E)] |
        [_ (key & w1 & l1 & w2 & r & l2 & Hk & E & _ & _ & Hw2)]]];
    rewrite E; cbn [fst snd].
  - left. repeat split; auto; discriminate.
  - left. repeat split; auto; discriminate.
  - destruct (getApiKey_resolved env w key w1 l1 Hk) as (_ & Ht & Hn & _ & _).
    assert (Hf1 : timers_fresh w1) by (unfold timers_fresh; rewrite Ht, Hn; exact Hf).
    destruct (settle_world_timers env r w2) as [-> ->].
    assert (Hstop : w2 = stop_timer (nextTimerId w1) (start_timer w1) ->
              timers w2 = timers w /\ nextTimerId w2 = S (nextTimerId w)).
    { intros ->. rewrite stop_after_start_timers by exact Hf1.
      cbn. rewrite Ht, Hn. auto. }
    assert (Hstart : w2 = start_timer w1 ->
              timers w2 = nextTimerId w :: timers w /\
              nextTimerId w2 = S (nextTimerId w)).
    { intros ->. cbn. rewrite Ht, Hn. auto. }
    destruct r as [url|e|].
    + destruct (Hstop (proj1 Hw2)) as [H1 H2]. left.
      repeat split; auto; discriminate.
    + destruct Hw2 as [-> | [H | H]].
      * left. rewrite Ht, Hn. repeat split; auto; discriminate.
      * destruct (Hstart H) as [H1 H2]. right. repeat split; auto; discriminate.
      * destruct (Hstop H) as [H1 H2]. left. repeat split; auto; discriminate.
    + destruct (Hstart Hw2) as [H1 H2]. right. repeat split; auto; discriminate.
Qed.

Lemma initializeApp_timers env w :
  timers (snd (fst (initializeApp env w))) = timers w /\
  nextTimerId (snd (fst (initializeApp env w))) = nextTimerId w.
Proof.
  destruct (initializeApp_world env w) as (r & w' & l & E & _ & H).
  rewrite E. cbn [fst snd].
  destruct r as [[|]|e|]; try contradiction.
  - destruct H as (key & w1 & l1 & Hk & ->).
    destruct (getApiKey_resolved env w key w1 l1 Hk) as (_ & Ht & Hn & _).
    cbn. auto.
  - subst w'. cbn. auto.
  - subst w'. auto.
Qed.

Lemma after_timers env c w :
  timers_fresh w ->
  timers_fresh (after env c w) /\
  nextTimerId w <= nextTimerId (after env c w) /\
  length (timers (after env c w)) <= S (length (timers w)).
Proof.
  intros Hf. destruct c as [|fuel params]; cbn [after].
  - destruct (initializeApp_timers env w) as [Ht Hn].
    unfold timers_fresh. rewrite Ht, Hn. repeat split; try apply Hf; lia.
  - destruct (generate_timers fuel env params w Hf)
      as [(Ht & Hn & _) | (Ht & Hn & _)]; cbn zeta in *.
    + unfold timers_fresh. rewrite Ht. destruct Hf as [Hnd Hlt].
      repeat split; try exact Hnd; try lia.
      * eapply Forall_impl; [|exact Hlt]. intros a Ha. cbv beta in *. lia.
    + unfold timers_fresh. rewrite Ht, Hn.
      pose proof (fresh_id_not_active w Hf) as Hnot.
      destruct Hf as [Hnd Hlt].
      repeat split; cbn [length]; try lia.
      * constructor; assumption.
      * constructor; [lia|].
        eapply Forall_impl; [|exact Hlt]. intros a Ha. cbv beta in *. lia.
Qed.

(** X10.  Over any sequence of calls the active timers stay distinct and
    below the next id, the next id never decreases, and each call leaves
    at most one more timer active than it found. *)
Theorem timers_stay_fresh calls : forall w,
  timers_fresh w ->
  timers_fresh (session calls w) /\
  nextTimerId w <= nextTimerId (session calls w) /\
  length (timers (session calls w)) <= length (timers w) + length calls.
Proof.
  induction calls as [|[env c] calls IH]; intros w Hf; cbn [session length].
  - repeat split; try apply Hf; lia.
  - destruct (after_timers env c w Hf) as (Hf' & Hn & Hl).
    destruct (IH _ Hf') as (H1 & H2 & H3).
    repeat split; try apply H1; lia.
Qed.

(** Two generations whose polls fail leave two timers running. *)
Lemma timers_stay_fresh_witness :
  let failing := production (Resolved key_served) (Resolved created_op)
                   (two_polls (Rejected (Error "Failed to fetch")))
                   (Resolved video_ok) in
  let calls := [ (failing, CallGenerateVideo 5 sample_params);
                 (failing, CallGenerateVideo 5 sample_params) ] in
  timers_fresh ready_world /\
  timers (session calls ready_world) = [2; 1] /\
  timers_fresh (session calls ready_world) /\
  length (timers (session calls ready_world)) <= 0 + 2.
Proof.
  intros failing calls.
  assert (Hf : timers_fresh ready_world)
    by (split; [constructor|constructor]).
  destruct (timers_stay_fresh calls ready_world Hf) as (H1 & _ & H3).
  split; [exact Hf|]. split; [reflexivity|]. split; [exact H1|exact H3].
Defined.

(** X9.  A call of [generateVideoFromImage] that resolves leaves exactly
    the timers it found (its own interval has been cleared) and the module
    still initialized. *)
Theorem resolved_call_leaves_no_timer fuel env params w url w' l :
  timers_fresh w ->
  generateVideoFromImage fuel env params w = (Ret url, w', l) ->
  timers w' = timers w /\
  isInitialized w' = true /\
  In (SetInterval (nextTimerId w) 5000) l /\
  In (ClearInterval (nextTimerId w)) l.
Proof.
  intros Hf Hg.
  destruct (generate_outcome fuel env params w)
    as [[_ E] | [[_ (e & l1 & _ & E)] |
        [Hi (key & w1 & l1 & w2 & r & l2 & Hk & E & _ & _ & Hw2)]]];
    rewrite E in Hg; try discriminate.
  injection Hg as -> <- <-. cbn [settle_world].
  destruct Hw2 as (-> & Hset & Hclr).
  destruct (getApiKey_resolved env w key w1 l1 Hk) as (_ & Ht & Hn & Hin & _).
  assert (Hf1 : timers_fresh w1) by (unfold timers_fresh; rewrite Ht, Hn; exact Hf).
  rewrite stop_after_start_timers by exact Hf1. rewrite <- Hn.
  split; [exact Ht|]. split; [cbn; congruence|].
  split; apply in_or_app; right; assumption.
Qed.

(** A generation that succeeds from the initialized module. *)
Lemma resolved_call_leaves_no_timer_witness :
  let env := production (Resolved key_served) (Resolved created_op)
               (two_polls (Resolved finished_op)) (Resolved video_ok) in
  let run := generateVideoFromImage 5 env sample_params ready_world in
  timers_fresh ready_world /\
  fst (fst run) = Ret "blob:mp4" /\
  timers (snd (fst run)) = timers ready_world /\
  In (ClearInterval 1) (snd run).
Proof.
  intros env run.
  assert (Hf : timers_fresh ready_world)
    by (split; [constructor|constructor]).
  destruct (generateVideoFromImage 5 env sample_params ready_world)
    as [[r w'] l] eqn:Hg.
  assert (Hr : r = Ret "blob:mp4")
    by (change r with (fst (fst (r, w', l))); rewrite <- Hg; reflexivity).
  subst r run.
  destruct (resolved_call_leaves_no_timer 5 env sample_params ready_world
              "blob:mp4" w' l Hf Hg) as (Ht & _ & _ & Hclr).
  split; [exact Hf|]. split; [reflexivity|]. split; [exact Ht|exact Hclr].
Defined.

(** ** The credential cache over a session *)

Lemma initializeApp_apiKey env w :
  apiKey (snd (fst (initializeApp env w)))
    = apiKey (snd (fst (getApiKey env w))) \/
  apiKey (snd (fst (initializeApp env w))) = apiKey w.
Proof.
  destruct (initializeApp_world env w) as (r & w' & l & E & _ & H).
  rewrite E. cbn [fst snd].
  destruct r as [[|]|e|]; try contradiction.
  - destruct H as (key & w1 & l1 & Hk & ->). rewrite Hk. left. reflexivity.
  - subst w'. right. reflexivity.
  - subst w'. right. reflexivity.
Qed.

Lemma getApiKey_cache_ok env w :
  cache_ok w -> cache_ok (snd (fst (getApiKey env w))).
Proof.
  intros Hc.
  destruct (getApiKey env w) as [[[key|e|] w1] l] eqn:Hk; cbn [fst snd].
  - destruct (getApiKey_resolved env w key w1 l Hk) as (Hne & _ & _ & _ & H).
    destruct (isAiStudio env).
    + destruct H as [-> _]. exact Hc.
    + destruct H as [H _]. unfold cache_ok. rewrite H. congruence.
  - rewrite (getApiKey_thrown env w e w1 l Hk). exact Hc.
  - destruct (getApiKey_cases env w) as (r & w0 & l0 & E & _ & Hnp & _).
    congruence.
Qed.

Lemma after_cache_ok env c w : cache_ok w -> cache_ok (after env c w).
Proof.
  intros Hc. destruct c as [|fuel params]; cbn [after].
  - unfold cache_ok.
    destruct (initializeApp_apiKey env w) as [-> | ->];
      [apply getApiKey_cache_ok|]; exact Hc.
  - destruct (generate_outcome fuel env params w)
      as [[_ E] | [[_ (e & l1 & _ & E)] |
          [_ (key & w1 & l1 & w2 & r & l2 & Hk & E & _ & _ & Hw2)]]];
      rewrite E; cbn [fst snd]; try exact Hc.
    pose proof (getApiKey_cache_ok env w Hc) as Hc1.
    rewrite Hk in Hc1. cbn [fst snd] in Hc1.
    assert (Hc2 : apiKey w2 = apiKey w1).
    { destruct r as [url|e|].
      - destruct Hw2 as [-> _]. reflexivity.
      - destruct Hw2 as [-> | [-> | ->]]; reflexivity.
      - subst w2. reflexivity. }
    unfold cache_ok.
    destruct (settle_world_cases env r w2) as [-> | [-> _]].
    + rewrite Hc2. exact Hc1.
    + cbn. discriminate.
Qed.

(** X3.  Over any sequence of calls, on any page, the cache is [null] or
    a non-empty string: an empty credential is never stored. *)
Theorem cache_never_holds_empty_string calls : forall w,
  cache_ok w -> cache_ok (session calls w).
Proof.
  induction calls as [|[env c] calls IH]; intros w Hc; cbn [session].
  - exact Hc.
  - apply IH. apply after_cache_ok. exact Hc.
Qed.

(** The key server answers 200 with an empty key: nothing is stored. *)
Lemma cache_never_holds_empty_string_witness :
  let empty_key :=
    production
      (Resolved {| key_ok := true; key_status := 200;
                   key_text := Resolved "{}";
                   json_apiKey := Resolved (Some "") |})
      (Resolved created_op)
      (two_polls (Resolved finished_op)) (Resolved video_ok) in
  cache_ok fresh_world /\
  apiKey (session [(empty_key, CallInitializeApp)] fresh_world) = None /\
  cache_ok (session [(empty_key, CallInitializeApp)] fresh_world).
Proof.
  intros empty_key.
  assert (Hc : cache_ok fresh_world) by discriminate.
  split; [exact Hc|]. split; [reflexivity|].
  exact (cache_never_holds_empty_string [(empty_key, CallInitializeApp)]
           fresh_world Hc).
Defined.

Lemma after_ready_implies_cached env c w :
  isAiStudio env = false ->
  ready_implies_cached w -> ready_implies_cached (after env c w).
Proof.
  intros Hs Hr. destruct c as [|fuel params]; cbn [after].
  - destruct (initializeApp_world env w) as (r & w' & l & E & _ & H).
    rewrite E. cbn [fst snd].
    destruct r as [[|]|e|]; try contradiction.
    + destruct H as (key & w1 & l1 & Hk & ->).
      destruct (getApiKey_resolved env w key w1 l1 Hk) as (Hne & _ & _ & _ & H).
      rewrite Hs in H. destruct H as [H _].
      intros _. exists key. cbn. rewrite H. apply truthy_nonempty. exact Hne.
    + subst w'. intros H. discriminate.
    + subst w'. exact Hr.
  - destruct (generate_outcome fuel env params w)
      as [[_ E] | [[_ (e & l1 & _ & E)] |
          [_ (key & w1 & l1 & w2 & r & l2 & Hk & E & _ & _ & Hw2)]]];
      rewrite E; cbn [fst snd]; try exact Hr.
    destruct (getApiKey_resolved env w key w1 l1 Hk) as (Hne & _ & _ & _ & H).
    rewrite Hs in H. destruct H as [H _].
    assert (Hc2 : apiKey w2 = Some key).
    { rewrite <- H. destruct r as [url|e|].
      - destruct Hw2 as [-> _]. reflexivity.
      - destruct Hw2 as [-> | [-> | ->]]; reflexivity.
      - subst w2. reflexivity. }
    destruct (settle_world_cases env r w2) as [-> | [-> _]].
    + intros _. exists key. rewrite Hc2. apply truthy_nonempty. exact Hne.
    + intros Hi. discriminate.
Qed.

Lemma session_ready_implies_cached calls : forall w,
  in_production calls ->
  ready_implies_cached w ->
  ready_implies_cached (session calls w).
Proof.
  induction calls as [|[env c] calls IH]; intros w Hp Hr; cbn [session].
  - exact Hr.
  - inversion Hp as [|? ? Hs Hrest]; subst. cbn [fst] in Hs.
    apply IH; [exact Hrest|].
    apply after_ready_implies_cached; assumption.
Qed.

(** X4.  On a production page, over any sequence of calls, the module is
    initialized only while the cache holds a key: [initializeApp] sets the
    flag after storing the key, and the permission-error branch resets
    both together. *)
Theorem initialized_module_holds_key calls w :
  in_production calls ->
  ready_implies_cached w ->
  isInitialized (session calls w) = true ->
  exists key,
    key <> "" /\ apiKey (session calls w) = Some key.
Proof.
  intros Hp Hr Hi.
  destruct (session_ready_implies_cached calls w Hp Hr Hi) as [key Hc].
  exists key. apply truthy_Some in Hc. tauto.
Qed.

(** Initialize, lose the key to a permission error, initialize again. *)
Lemma initialized_module_holds_key_witness :
  let served := production (Resolved key_served) (Resolved created_op)
                  (two_polls (Resolved finished_op)) (Resolved video_ok) in
  let refused := production (Resolved key_served) (Rejected permission_denied)
                   (two_polls (Resolved finished_op)) (Resolved video_ok) in
  let calls := [ (served, CallInitializeApp);
                 (refused, CallGenerateVideo 5 sample_params);
                 (served, CallInitializeApp) ] in
  in_production calls /\
  ready_implies_cached fresh_world /\
  isInitialized (session calls fresh_world) = true /\
  exists key, key <> "" /\ apiKey (session calls fresh_world) = Some key.
Proof.
  intros served refused calls.
  assert (Hp : in_production calls) by (repeat constructor).
  assert (Hr : ready_implies_cached fresh_world) by (intros H; discriminate).
  split; [exact Hp|]. split; [exact Hr|]. split; [reflexivity|].
  exact (initialized_module_holds_key calls fresh_world Hp Hr eq_refl).
Defined.

(** X5.  On a production page, starting from the module as loaded, no
    call of [generateVideoFromImage] ever asks the key server for the
    key: whenever the call gets past its guard the key is in the cache. *)
Theorem generate_never_fetches_key calls w fuel env params :
  loaded w ->
  in_production calls ->
  isAiStudio env = false ->
  existsb is_fetch_key
    (snd (generateVideoFromImage fuel env params (session calls w))) = false.
Proof.
  intros [Hk0 Hi0] Hp Hs.
  assert (Hr : ready_implies_cached (session calls w)).
  { apply session_ready_implies_cached; [exact Hp|].
    intros H. congruence. }
  set (w' := session calls w) in *.
  destruct (generate_outcome fuel env params w')
    as [[_ E] | [[Hi (e & l1 & Hk & E)] |
        [Hi (key & w1 & l1 & w2 & r & l2 & Hk & E & _ & Hnf & _)]]];
    rewrite E; cbn [snd].
  - reflexivity.
  - destruct (Hr Hi) as [key Hc].
    rewrite (getApiKey_cached env w' key Hs Hc) in Hk. discriminate.
  - destruct (Hr Hi) as [key' Hc].
    rewrite (getApiKey_cached env w' key' Hs Hc) in Hk.
    injection Hk as _ _ <-. exact Hnf.
Qed.

(** After [initializeApp], a generation with the key server unreachable. *)
Lemma generate_never_fetches_key_witness :
  let served := production (Resolved key_served) (Resolved created_op)
                  (two_polls (Resolved finished_op)) (Resolved video_ok) in
  let unreachable := production (Rejected (Error "Failed to fetch"))
                       (Resolved created_op)
                       (two_polls (Resolved finished_op)) (Resolved video_ok) in
  let w := session [(served, CallInitializeApp)] fresh_world in
  loaded fresh_world /\
  in_production [(served, CallInitializeApp)] /\
  isAiStudio unreachable = false /\
  fst (fst (generateVideoFromImage 5 unreachable sample_params w))
    = Ret "blob:mp4" /\
  existsb is_fetch_key
    (snd (generateVideoFromImage 5 unreachable sample_params w)) = false.
Proof.
  intros served unreachable w.
  assert (Hl : loaded fresh_world) by (split; reflexivity).
  assert (Hp : in_production [(served, CallInitializeApp)])
    by (repeat constructor).
  split; [exact Hl|]. split; [exact Hp|]. split; [reflexivity|].
  split; [reflexivity|].
  exact (generate_never_fetches_key [(served, CallInitializeApp)] fresh_world
           5 unreachable sample_params Hl Hp eq_refl).
Defined.

(** ** Calls of [generateVideoFromImage] *)

Lemma generate_session_blocked calls : forall w,
  only_generate calls ->
  isInitialized w = false ->
  session calls w = w.
Proof.
  induction calls as [|[env c] calls IH]; intros w Hg Hi; cbn [session].
  - reflexivity.
  - inversion Hg as [|? ? (fuel & params & Hc) Hrest]; subst.
    cbn [snd] in Hc. subst c. cbn [after].
    rewrite generate_not_initialized by exact Hi. cbn [fst snd].
    apply IH; assumption.
Qed.

(** X7.  On a production page, a call made with a key in the cache that
    throws an error whose message contains 'permission' leaves the cache
    empty and the module uninitialized.  From then on, and for as long as
    only [generateVideoFromImage] is called ([initializeApp] is not called
    again), every such call, whatever the page answers, throws
    'Application is not initialized...' at once, without any request and
    without changing anything. *)
Theorem permission_error_blocks_later_calls
    fuel env params w key e calls fuel' env' params' :
  isAiStudio env = false ->
  truthy (apiKey w) = Some key ->
  fst (fst (generateVideoFromImage fuel env params w)) = Throw e ->
  includes (message e) "permission" = true ->
  only_generate calls ->
  let w' := snd (fst (generateVideoFromImage fuel env params w)) in
  apiKey w' = None /\
  isInitialized w' = false /\
  session calls w' = w' /\
  generateVideoFromImage fuel' env' params' (session calls w')
    = (Throw not_initialized, w', []).
Proof.
  intros Hs Hc Hthrow Hperm Hcalls w'. subst w'.
  assert (H : apiKey (snd (fst (generateVideoFromImage fuel env params w)))
                = None /\
              isInitialized (snd (fst (generateVideoFromImage fuel env params w)))
                = false).
  { destruct (generate_outcome fuel env params w)
      as [[_ E] | [[_ (e0 & l1 & Hk & E)] |
          [_ (k & w1 & l1 & w2 & r & l2 & Hk & E & _ & _ & _)]]];
      rewrite E in *; cbn [fst snd] in *.
    - injection Hthrow as <-. vm_compute in Hperm. discriminate.
    - rewrite (getApiKey_cached env w key Hs Hc) in Hk. discriminate.
    - subst r. cbn [settle_world].
      rewrite (on_error_permission env e w2 Hs Hperm).
      split; reflexivity. }
  destruct H as [Hk Hi].
  rewrite (generate_session_blocked calls _ Hcalls Hi).
  split; [exact Hk|]. split; [exact Hi|]. split; [reflexivity|].
  apply generate_not_initialized. exact Hi.
Qed.

(** The create call is refused; two further generations are attempted on
    a page where all would go well, and the next one is stopped by the
    guard as they were. *)
Lemma permission_error_blocks_later_calls_witness :
  let served := production (Resolved key_served) (Resolved created_op)
                  (two_polls (Resolved finished_op)) (Resolved video_ok) in
  let refused := production (Resolved key_served) (Rejected permission_denied)
                   (two_polls (Resolved finished_op)) (Resolved video_ok) in
  let calls := [ (served, CallGenerateVideo 5 sample_params);
                 (served, CallGenerateVideo 9 sample_params) ] in
  let w' := snd (fst (generateVideoFromImage 5 refused sample_params
                        ready_world)) in
  isAiStudio refused = false /\
  truthy (apiKey ready_world) = Some "K1" /\
  fst (fst (generateVideoFromImage 5 refused sample_params ready_world))
    = Throw permission_denied /\
  includes (message permission_denied) "permission" = true /\
  only_generate calls /\
  generateVideoFromImage 5 served sample_params (session calls w')
    = (Throw not_initialized, w', []).
Proof.
  intros served refused calls w'.
  assert (Hcalls : only_generate calls).
  { repeat constructor; do 2 eexists; reflexivity. }
  destruct (permission_error_blocks_later_calls 5 refused sample_params
              ready_world "K1" permission_denied calls 5 served sample_params
              eq_refl eq_refl eq_refl eq_refl Hcalls) as (_ & _ & _ & Hnext).
  split; [reflexivity|]. split; [reflexivity|]. split; [reflexivity|].
  split; [reflexivity|]. split; [exact Hcalls|exact Hnext].
Defined.

(** X8.  All requests of one call are made with one key, the one
    [getApiKey] resolved to at the start of the call: the create call and
    every poll use it as the client's [apiKey], and the download URL ends
    with [&key=] followed by it. *)
Theorem one_key_per_call fuel env params w key w1 l1 :
  getApiKey env w = (Ret key, w1, l1) ->
  Forall (uses_key key) (snd (generateVideoFromImage fuel env params w)).
Proof.
  intros Hkey.
  destruct (generate_outcome fuel env params w)
    as [[_ E] | [[_ (e0 & l0 & Hk & E)] |
        [_ (k & w0 & l0 & w2 & r & l2 & Hk & E & Hu & _ & _)]]];
    rewrite E; cbn [snd].
  - constructor.
  - congruence.
  - rewrite Hkey in Hk. injection Hk as <- <- <-.
    apply Forall_app. split; [|exact Hu].
    destruct (getApiKey_resolved env w key w1 l1 Hkey) as (_ & _ & _ & _ & H).
    destruct (isAiStudio env).
    + destruct H as [_ ->]. constructor.
    + destruct H as [_ [[_ ->] | (_ & _ & ->)]]; repeat constructor.
Qed.

(** In AI Studio the selected key goes into every request of the call. *)
Lemma one_key_per_call_witness :
  let env := studio (Resolved true) (Some "K2") (Resolved created_op) in
  getApiKey env ready_world = (Ret "K2", ready_world, []) /\
  In (FetchVideo "https://videos.example/42?alt=media&key=K2")
     (snd (generateVideoFromImage 5 env sample_params ready_world)) /\
  Forall (uses_key "K2")
     (snd (generateVideoFromImage 5 env sample_params ready_world)).
Proof.
  intros env. split; [reflexivity|]. split.
  - vm_compute. tauto.
  - exact (one_key_per_call 5 env sample_params ready_world "K2" ready_world
             [] eq_refl).
Defined.

(** X11.  In AI Studio neither exported operation reads or writes the
    cache or asks the key server: both leave [apiKey] as it was and log no
    request for the key, and [generateVideoFromImage] leaves
    [isInitialized] as it was, whatever error it meets. *)
Theorem studio_never_touches_cache env w fuel params :
  isAiStudio env = true ->
  apiKey (snd (fst (initializeApp env w))) = apiKey w /\
  existsb is_fetch_key (snd (initializeApp env w)) = false /\
  apiKey (snd (fst (generateVideoFromImage fuel env params w))) = apiKey w /\
  isInitialized (snd (fst (generateVideoFromImage fuel env params w)))
    = isInitialized w /\
  existsb is_fetch_key (snd (generateVideoFromImage fuel env params w)) = false.
Proof.
  intros Hs.
  assert (Hget : forall key w1 l1, getApiKey env w = (Ret key, w1, l1) ->
                                   w1 = w /\ l1 = []).
  { intros key w1 l1 Hk.
    destruct (getApiKey_resolved env w key w1 l1 Hk) as (_ & _ & _ & _ & H).
    rewrite Hs in H. exact H. }
  split; [|split].
  - destruct (initializeApp_world env w) as (r & w' & l & E & _ & H).
    rewrite E. cbn [fst snd].
    destruct r as [[|]|e|]; try contradiction.
    + destruct H as (key & w1 & l1 & Hk & ->).
      destruct (Hget key w1 l1 Hk) as [-> _]. reflexivity.
    + subst w'. reflexivity.
    + subst w'. reflexivity.
  - rewrite initializeApp_eq. unfold preflight. rewrite Hs.
    rewrite (getApiKey_studio env w Hs).
    destruct (aistudio env) as [[[|]|e]|]; try reflexivity;
      destruct (truthy (API_KEY env)); reflexivity.
  - destruct (generate_outcome fuel env params w)
      as [[_ E] | [[_ (e0 & l0 & Hk & E)] |
          [_ (k & w1 & l1 & w2 & r & l2 & Hk & E & _ & Hnf & Hw2)]]];
      rewrite E; cbn [fst snd]; auto.
    + rewrite (getApiKey_studio env w Hs) in Hk.
      injection Hk as _ <-. auto.
    + destruct (Hget k w1 l1 Hk) as [-> ->].
      assert (Hsame : settle_world env r w2 = w2).
      { destruct (settle_world_cases env r w2) as [H | [_ [H _]]];
          [exact H|congruence]. }
      rewrite Hsame. cbn [app].
      assert (Hf : apiKey w2 = apiKey w /\ isInitialized w2 = isInitialized w).
      { destruct r as [url|e|].
        - destruct Hw2 as [-> _]. auto.
        - destruct Hw2 as [-> | [-> | ->]]; auto.
        - subst w2. auto. }
      destruct Hf as [-> ->]. auto.
Qed.

(** In AI Studio a refused create call leaves the module initialized. *)
Lemma studio_never_touches_cache_witness :
  let env := studio (Resolved true) (Some "K2") (Rejected permission_denied) in
  isAiStudio env = true /\
  fst (fst (generateVideoFromImage 5 env sample_params ready_world))
    = Throw permission_denied /\
  apiKey (snd (fst (generateVideoFromImage 5 env sample_params ready_world)))
    = apiKey ready_world /\
  isInitialized
    (snd (fst (generateVideoFromImage 5 env sample_params ready_world)))
    = isInitialized ready_world.
Proof.
  intros env.
  destruct (studio_never_touches_cache env ready_world 5 sample_params eq_refl)
    as (_ & _ & Hk & Hi & _).
  split; [reflexivity|]. split; [reflexivity|]. split; [exact Hk|exact Hi].
Defined.

Lemma poll_loop_never_done env key : forall fuel n op w,
  never_done env ->
  not_done op ->
  exists hs,
    poll_loop env fuel n key op w = (Pending, w, poll_events key hs) /\
    length hs = fuel.
Proof.
  induction fuel as [|fuel IH]; intros n op w Hnever Hop.
  - exists []. split; [|reflexivity].
    simpl. rewrite Hop. reflexivity.
  - rewrite poll_loop_step by exact Hop.
    destruct (Hnever n) as [op' [Hp Hnd]]. rewrite Hp.
    destruct (IH (S n) op' w Hnever Hnd) as [hs [E Hlen]].
    rewrite E. exists (op :: hs). split; [reflexivity|].
    simpl. congruence.
Qed.

(** X20.  The loop has no bound of its own: as long as the service
    answers every poll with an operation that is not done, the call does
    not settle, however many iterations it is given, and it has polled
    once per iteration, leaving its interval timer active. *)
Theorem polling_never_gives_up fuel env params w key w1 l1 op0 :
  isInitialized w = true ->
  getApiKey env w = (Ret key, w1, l1) ->
  generateVideos env = Resolved op0 ->
  not_done op0 ->
  never_done env ->
  let run := generateVideoFromImage fuel env params w in
  fst (fst run) = Pending /\
  length (poll_handles (snd run)) = fuel /\
  In (nextTimerId w1) (timers (snd (fst run))).
Proof.
  intros Hi Hk Hc Hop Hnever run. subst run.
  rewrite (generate_run fuel env params w key w1 l1 op0 Hi Hk Hc). cbn zeta.
  destruct (poll_loop_never_done env key fuel 0 op0 (start_timer w1) Hnever Hop)
    as [hs [E Hlen]].
  rewrite E. cbn [fst snd]. split; [reflexivity|]. split.
  - rewrite !poll_handles_app, poll_handles_events.
    replace (poll_handles l1) with (@nil Operation).
    + cbn. exact Hlen.
    + destruct (getApiKey_cases env w) as (r & w0 & l0 & E0 & Hl & _).
      rewrite Hk in E0. injection E0 as _ _ <-.
      destruct Hl as [-> | ->]; reflexivity.
  - cbn. tauto.
Qed.

(** Forty iterations against a service that never finishes. *)
Lemma polling_never_gives_up_witness :
  isInitialized ready_world = true /\
  getApiKey stuck ready_world = (Ret "K1", ready_world, []) /\
  generateVideos stuck = Resolved created_op /\
  not_done created_op /\
  never_done stuck /\
  fst (fst (generateVideoFromImage 40 stuck sample_params ready_world))
    = Pending /\
  length (poll_handles
            (snd (generateVideoFromImage 40 stuck sample_params ready_world)))
    = 40.
Proof.
  assert (Hnever : never_done stuck)
    by (intros n; exists running_op; split; reflexivity).
  destruct (polling_never_gives_up 40 stuck sample_params ready_world "K1"
              ready_world [] created_op eq_refl eq_refl eq_refl eq_refl Hnever)
    as (Hp & Hlen & _).
  split; [reflexivity|]. split; [reflexivity|]. split; [reflexivity|].
  split; [reflexivity|]. split; [exact Hnever|]. split; [exact Hp|exact Hlen].
Defined.

(** * Properties of the component's handlers *)

Lemma AppState_eqb_eq a b : App.AppState_eqb a b = true <-> a = b.
Proof. destruct a, b; cbn; split; congruence. Qed.


Lemma handleGenerateVideo_blocked fuel env st w :
  App.appState st <> App.ready \/ truthy (App.imageBase64 st) = None \/
  App.prompt st = "" ->
  exists msg,
    msg <> "" /\
    App.handleGenerateVideo fuel env st w
      = (Ret (App.setError (Some msg) st), w, []).
Proof.
  intros H. unfold App.handleGenerateVideo.
  destruct (App.AppState_eqb (App.appState st) App.ready) eqn:Ha; cbn [negb].
  2:{ eexists. split; [|reflexivity]. discriminate. }
  apply AppState_eqb_eq in Ha.
  destruct (truthy (App.imageBase64 st)) as [image|] eqn:Hi.
  2:{ eexists. split; [|reflexivity]. discriminate. }
  destruct H as [H | [H | H]]; [contradiction|discriminate|].
  rewrite H. cbn. eexists. split; [|reflexivity]. discriminate.
Qed.

(** X12.  Unless the component is 'ready', holds an image and has a
    non-empty prompt, [handleGenerateVideo] only sets an error message: it
    makes no request, changes nothing in the service module and leaves the
    rest of the component state (loading flag, video, app state) as it
    was. *)
Theorem blocked_generation_only_sets_error fuel env st w :
  App.appState st <> App.ready \/ truthy (App.imageBase64 st) = None \/
  App.prompt st = "" ->
  exists st',
    App.handleGenerateVideo fuel env st w = (Ret st', w, []) /\
    (exists msg, msg <> "" /\ App.error st' = Some msg) /\
    App.appState st' = App.appState st /\
    App.isLoading st' = App.isLoading st /\
    App.generatedVideoUrl st' = App.generatedVideoUrl st /\
    App.generatedVideoBlob st' = App.generatedVideoBlob st.
Proof.
  intros H.
  destruct (handleGenerateVideo_blocked fuel env st w H) as [msg [Hne E]].
  eexists. split; [exact E|]. cbn. repeat split; eauto.
Qed.

(** No image chosen: nothing is requested. *)
Lemma blocked_generation_only_sets_error_witness :
  let env := production (Resolved key_served) (Resolved created_op)
               (two_polls (Resolved finished_op)) (Resolved video_ok) in
  let st := App.setAppState App.ready
              {| App.imageBase64 := None;
                 App.prompt := "Make the monster dance";
                 App.aspectRatio := Landscape_16_9;
                 App.isLoading := false;
                 App.generatedVideoUrl := App.VNull;
                 App.generatedVideoBlob := App.VNull;
                 App.error := None;
                 App.appState := App.initializing |} in
  truthy (App.imageBase64 st) = None /\
  exists st',
    App.handleGenerateVideo 5 env st ready_world = (Ret st', ready_world, []) /\
    App.appState st' = App.ready.
Proof.
  intros env st. split; [reflexivity|].
  destruct (blocked_generation_only_sets_error 5 env st ready_world
              (or_intror (or_introl eq_refl))) as (st' & H & _ & Ha & _).
  exists st'. split; [exact H|exact Ha].
Defined.



(** X14.  The effect run on mount never rejects, and whenever it settles
    the state it leaves tells the truth about the service: 'ready' only
    with the module initialized, 'key_needed' only with it uninitialized,
    'error' only together with a non-empty message; a settled effect has
    left 'initializing'. *)
Theorem init_state_matches_service env st w :
  (forall e, fst (fst (App.init env st w)) <> Throw e) /\
  forall st' w' l,
    App.init env st w = (Ret st', w', l) ->
    match App.appState st' with
    | App.ready => isInitialized w' = true
    | App.key_needed => isInitialized w' = false
    | App.error_state => exists msg, App.error st' = Some msg /\ msg <> ""
    | App.initializing => False
    end.
Proof.
  unfold App.init, try_catch, bind, ret.
  destruct (initializeApp_world env w) as (r & w0 & l0 & E & _ & H).
  rewrite E. destruct r as [[|]|e|]; cbn [fst snd].
  - split; [discriminate|]. intros st' w' l [= <- <- _]. cbn.
    destruct H as (key & w1 & l1 & _ & ->). reflexivity.
  - split; [discriminate|]. intros st' w' l [= <- <- _]. cbn.
    subst w0. reflexivity.
  - split; [discriminate|]. intros st' w' l [= <- <- _]. cbn.
    eexists. split; [reflexivity|].
    unfold or_else, truthy.
    destruct (String.eqb_spec (message e) ""); [discriminate|assumption].
  - split; discriminate.
Qed.

(** The key server is unreachable at mount: the 'error' state. *)
Lemma init_state_matches_service_witness :
  let unreachable := production (Rejected (Error "Failed to fetch"))
                       (Resolved created_op)
                       (two_polls (Resolved finished_op)) (Resolved video_ok) in
  App.init unreachable mounted_ui fresh_world
    = (Ret (App.setAppState App.error_state
              (App.setError (Some "Failed to fetch") mounted_ui)),
       fresh_world, [FetchKey]) /\
  exists msg,
    App.error (App.setAppState App.error_state
                 (App.setError (Some "Failed to fetch") mounted_ui)) = Some msg /\
    msg <> "".
Proof.
  intros unreachable.
  assert (E : App.init unreachable mounted_ui fresh_world
              = (Ret (App.setAppState App.error_state
                        (App.setError (Some "Failed to fetch") mounted_ui)),
                 fresh_world, [FetchKey])) by reflexivity.
  split; [exact E|].
  exact (proj2 (init_state_matches_service unreachable mounted_ui fresh_world)
           _ _ _ E).
Defined.

(** X15.  Selecting a key does not initialize the service.  In AI Studio,
    with the module uninitialized (as the mount leaves it when no key was
    selected), [handleSelectApiKey] moves the component to 'ready' without
    touching the module; a generation started then, whatever the page now
    answers, ends with the message 'Application is not initialized...'
    and makes no request. *)
Theorem selecting_key_does_not_initialize fuel env env' st w :
  aistudio env <> None ->
  isInitialized w = false ->
  (exists image, truthy (App.imageBase64 st) = Some image) ->
  App.prompt st <> "" ->
  exists st1 st2,
    handleSelectApiKey env (Resolved tt) st w = (Ret st1, w, []) /\
    App.appState st1 = App.ready /\
    App.error st1 = None /\
    App.handleGenerateVideo fuel env' st1 w = (Ret st2, w, []) /\
    App.error st2 = Some (message not_initialized) /\
    App.appState st2 = App.ready.
Proof.
  intros Ha Hi [image Himg] Hp.
  unfold handleSelectApiKey.
  destruct (aistudio env) as [ai|]; [|congruence].
  unfold try_catch, bind, settle, ret. cbn [app].
  set (st1 := App.setError None (App.setAppState App.ready st)).
  exists st1. eexists. split; [reflexivity|]. split; [reflexivity|].
  split; [reflexivity|].
  rewrite (handleGenerateVideo_settled fuel env' st1 w image eq_refl Himg Hp).
  cbn zeta.
  rewrite generate_not_initialized by exact Hi.
  split; [reflexivity|]. split; reflexivity.
Qed.

(** Mounted in AI Studio with no key selected, then a key is selected. *)
Lemma selecting_key_does_not_initialize_witness :
  let before := studio (Resolved false) None (Resolved created_op) in
  let selected := studio (Resolved true) (Some "K2") (Resolved created_op) in
  let w := snd (fst (App.init before mounted_ui fresh_world)) in
  fst (fst (App.init before mounted_ui fresh_world))
    = Ret (App.setAppState App.key_needed mounted_ui) /\
  isInitialized w = false /\
  exists st1 st2,
    handleSelectApiKey selected (Resolved tt)
      (App.setAppState App.key_needed mounted_ui) w = (Ret st1, w, []) /\
    App.appState st1 = App.ready /\
    App.handleGenerateVideo 5 selected st1 w = (Ret st2, w, []) /\
    App.error st2 =
      Some "Application is not initialized. Please select an API key if prompted.".
Proof.
  intros before selected w.
  assert (Ha : aistudio selected <> None) by discriminate.
  assert (Hp : App.prompt (App.setAppState App.key_needed mounted_ui) <> "")
    by discriminate.
  destruct (selecting_key_does_not_initialize 5 selected selected
              (App.setAppState App.key_needed mounted_ui) w
              Ha eq_refl (ex_intro _ "iVBORw0KGgo=" eq_refl) Hp)
    as (st1 & st2 & H1 & H2 & _ & H3 & H4 & _).
  split; [reflexivity|]. split; [reflexivity|].
  exists st1, st2. auto.
Defined.

(** X16.  The message rotation stays within [LOADING_MESSAGES]: after any
    number of firings [messageIndex] is the count of firings modulo 7, so
    the callback always finds a message to show and the seven messages
    repeat in order. *)
Theorem message_rotation_is_cyclic n :
  messageIndex_after n = n mod 7 /\
  fst (rotate_message (messageIndex_after n))
    = nth_error LOADING_MESSAGES (n mod 7) /\
  fst (rotate_message (messageIndex_after n)) <> None.
Proof.
  assert (H : messageIndex_after n = n mod 7).
  { induction n as [|n IH]; [reflexivity|].
    cbn [messageIndex_after]. unfold rotate_message. cbn [snd].
    rewrite IH. change (length LOADING_MESSAGES) with 7.
    rewrite Nat.Div0.add_mod_idemp_l. f_equal. lia. }
  split; [exact H|]. rewrite H. unfold rotate_message. cbn [fst].
  split; [reflexivity|].
  apply nth_error_Some. change (length LOADING_MESSAGES) with 7.
  apply Nat.mod_upper_bound. discriminate.
Qed.

(** X17.  [handleShare] does exactly one thing, share or download.  It
    downloads exactly when the browser cannot share the file, and it shows
    an error exactly when the share was attempted and rejected with
    something other than AbortError: a share the user cancels shows
    nothing, and the fallback download never shows an error. *)
Theorem handleShare_shares_or_downloads
    navigator now1 now2 videoUrl videoBlob :
  let result :=
    ShareButton.handleShare navigator now1 now2 videoUrl videoBlob in
  length (snd result) = 1 /\
  (In (ShareButton.Download videoUrl (ShareButton.animation_name now2))
      (snd result) <->
   ShareButton.share navigator = None \/
   ShareButton.canShare navigator <> Some true) /\
  (fst result <> None <->
   exists err,
     ShareButton.share navigator = Some (ShareButton.ShareRejected err) /\
     ShareButton.canShare navigator = Some true /\
     ShareButton.name err <> "AbortError").
Proof.
  unfold ShareButton.handleShare. cbn zeta.
  destruct (ShareButton.share navigator) as [[|err]|];
    destruct (ShareButton.canShare navigator) as [[|]|];
    cbn [fst snd length In negb];
    try (destruct (String.eqb_spec (ShareButton.name err) "AbortError")
           as [He|He];
         cbn [fst snd length In negb]);
    (split; [reflexivity|]); (split; split).
  all: try (intros [H|H]; try contradiction; try discriminate H; congruence).
  all: try (intros H; first [ left; reflexivity | right; discriminate ]).
  all: try (intros _; left; reflexivity).
  all: try (intros H; contradiction H; reflexivity).
  all: try (intros (e & H1 & H2 & H3); try discriminate H1; try discriminate H2;
            injection H1 as <-; contradiction).
  all: try (intros _; exists err; repeat split; assumption).
  all: try (intros _; discriminate).
Qed.

(** X18.  Taking a photo releases the camera.  After [openCamera] has
    obtained a stream, [takePhoto] (with the video and canvas mounted)
    forgets the stream and closes the camera, whether or not the canvas
    produced an image.  Every track of the stream is stopped by
    [closeCamera], in order, and stopped a second time by the cleanup of
    the effect on [[stream]] that the following render runs; nothing else
    is stopped.  An image is handed to the parent only when the canvas
    gave a 2d context and a blob. *)
Theorem takePhoto_releases_camera mediaStream context captured now st :
  let opened :=
    ImageUploader.openCamera (Some (Resolved mediaStream)) st in
  let result :=
    ImageUploader.committed opened
      (ImageUploader.takePhoto true context captured now opened) in
  ImageUploader.isCameraOpen opened = true /\
  ImageUploader.cameraError opened = None /\
  ImageUploader.isCameraOpen (fst result) = false /\
  ImageUploader.stream (fst result) = None /\
  snd result =
    (if context then
       match captured with
       | Some b =>
           [ImageUploader.ImageSelect
              {| ImageUploader.file_blob := b;
                 ImageUploader.file_name := ImageUploader.capture_name now;
                 ImageUploader.file_type := "image/png" |}]
       | None => []
       end
     else [])
    ++ map ImageUploader.StopTrack mediaStream
    ++ map ImageUploader.StopTrack mediaStream.
Proof.
  destruct context, captured; repeat split; cbn;
    rewrite <- ?app_assoc; reflexivity.
Qed.

(** * The download *)

(** What the loop returns is the operation it was entered with or the
    response to one of its polls. *)
Lemma poll_loop_returns_seen env key : forall fuel n op w op' w' l,
  poll_loop env fuel n key op w = (Ret op', w', l) ->
  op' = op \/ exists m, getVideosOperation env m = Resolved op'.
Proof.
  induction fuel as [|fuel IH]; intros n op w op' w' l H.
  - simpl in H. destruct (truthy_flag (done op)); [|discriminate].
    unfold ret in H. left. congruence.
  - destruct (truthy_flag (done op)) eqn:Hd.
    + rewrite poll_loop_at_done in H by exact Hd. left. congruence.
    + rewrite poll_loop_step in H by exact Hd.
      destruct (getVideosOperation env n) as [op1|e] eqn:Hp; [|discriminate].
      destruct (poll_loop env fuel (S n) key op1 w) as [[r w1] l1] eqn:E.
      injection H as -> -> _.
      destruct (IH _ _ _ _ _ _ E) as [-> | H]; [|right; exact H].
      right. exists n. exact Hp.
Qed.




(** * The credential cache and the result of a generation *)

Lemma settle_world_permission env r w :
  settle_world env r w =
    if permission_failure env r then invalidate w else w.
Proof.
  unfold permission_failure.
  destruct r as [a|e|]; cbn [settle_world];
    try (destruct (negb (isAiStudio env)); reflexivity).
  unfold on_error.
  destruct (negb (isAiStudio env)); cbn [andb]; [|reflexivity].
  destruct (includes (message e) "permission") eqn:Hi.
  - assert (Ht : is_truthy (Some (message e)) = true).
    { unfold is_truthy. rewrite truthy_nonempty; [reflexivity|].
      eapply includes_nonempty; [|exact Hi]. discriminate. }
    rewrite Ht. reflexivity.
  - rewrite andb_false_r. reflexivity.
Qed.

Lemma initializeApp_keeps_cache env w key :
  truthy (apiKey w) = Some key ->
  apiKey (snd (fst (initializeApp env w))) = Some key.
Proof.
  intros Hc. destruct (truthy_Some _ _ Hc) as [Hw _].
  destruct (initializeApp_apiKey env w) as [-> | ->]; [|exact Hw].
  apply getApiKey_keeps_cache. exact Hc.
Qed.

(** With a key in the cache, what a call of [generateVideoFromImage] does
    to the cache and to [isInitialized] is decided by how it ends. *)
Lemma generate_cache_effect fuel env params w key :
  truthy (apiKey w) = Some key ->
  let run := generateVideoFromImage fuel env params w in
  if permission_failure env (fst (fst run))
  then apiKey (snd (fst run)) = None /\
       isInitialized (snd (fst run)) = false
  else apiKey (snd (fst run)) = Some key /\
       isInitialized (snd (fst run)) = isInitialized w.
Proof.
  intros Hc run. subst run.
  destruct (truthy_Some _ _ Hc) as [Hw _].
  destruct (generate_outcome fuel env params w)
    as [[_ E] | [[_ (e & l1 & Hk & E)] |
        [_ (k & w1 & l1 & w2 & r & l2 & Hk & E & _ & _ & Hw2)]]];
    rewrite E; cbn [fst snd].
  - replace (permission_failure env (Throw not_initialized)) with false.
    + auto.
    + unfold permission_failure. change (includes (message not_initialized) "permission") with false.
      rewrite andb_false_r. reflexivity.
  - destruct (isAiStudio env) eqn:Hs.
    + unfold permission_failure. rewrite Hs. cbn. auto.
    + rewrite (getApiKey_cached env w key Hs Hc) in Hk. discriminate.
  - pose proof (getApiKey_keeps_cache env w key Hc) as Hk1.
    rewrite Hk in Hk1. cbn [fst snd] in Hk1.
    destruct (getApiKey_resolved env w k w1 l1 Hk) as (_ & _ & _ & Hi1 & _).
    assert (Hf : apiKey w2 = Some key /\ isInitialized w2 = isInitialized w).
    { rewrite <- Hk1, <- Hi1. destruct r as [url|e|].
      - destruct Hw2 as [-> _]. auto.
      - destruct Hw2 as [-> | [-> | ->]]; auto.
      - subst w2. auto. }
    rewrite settle_world_permission.
    destruct (permission_failure env r); [cbn; auto | exact Hf].
Qed.

(** C4, as stated, fails: the key is in the cache after [initializeApp];
    the create call is then refused with a permission error and the
    [catch] block sets the cache back to [null] and [isInitialized] to
    [false]. *)
Lemma permission_error_clears_cache :
  let served := production (Resolved key_served) (Resolved created_op)
                  (two_polls (Resolved finished_op)) (Resolved video_ok) in
  let refused := production (Resolved key_served) (Rejected permission_denied)
                   (two_polls (Resolved finished_op)) (Resolved video_ok) in
  initializeApp served fresh_world = (Ret true, ready_world, [FetchKey]) /\
  apiKey ready_world = Some "K1" /\
  fst (fst (generateVideoFromImage 5 refused sample_params ready_world)) =
    Throw permission_denied /\
  apiKey (snd (fst (generateVideoFromImage 5 refused sample_params ready_world)))
    = None /\
  isInitialized
    (snd (fst (generateVideoFromImage 5 refused sample_params ready_world)))
    = false.
Proof. intros served refused. repeat apply conj; reflexivity. Qed.

(** C4, amended.  A credential held in the cache is kept by [getApiKey]
    and by [initializeApp].  [generateVideoFromImage] keeps it, and keeps
    [isInitialized], in every case but one: when, outside AI Studio, the
    call throws an error whose message contains 'permission', the [catch]
    block has set the cache to [null] and [isInitialized] to [false]. *)
Theorem cached_key_kept_until_permission_error env w key fuel params :
  truthy (apiKey w) = Some key ->
  apiKey (snd (fst (getApiKey env w))) = Some key /\
  apiKey (snd (fst (initializeApp env w))) = Some key /\
  let run := generateVideoFromImage fuel env params w in
  (apiKey (snd (fst run)) = Some key \/
   apiKey (snd (fst run)) = None /\ isAiStudio env = false /\
   exists e, fst (fst run) = Throw e /\
             includes (message e) "permission" = true) /\
  if permission_failure env (fst (fst run))
  then apiKey (snd (fst run)) = None /\
       isInitialized (snd (fst run)) = false
  else apiKey (snd (fst run)) = Some key /\
       isInitialized (snd (fst run)) = isInitialized w.
Proof.
  intros Hc.
  split; [apply getApiKey_keeps_cache; exact Hc|].
  split; [apply initializeApp_keeps_cache; exact Hc|].
  cbn zeta.
  pose proof (generate_cache_effect fuel env params w key Hc) as H.
  cbn zeta in H. split; [|exact H].
  destruct (permission_failure env
              (fst (fst (generateVideoFromImage fuel env params w)))) eqn:Hp.
  - right. destruct H as [H _]. split; [exact H|].
    unfold permission_failure in Hp.
    apply andb_prop in Hp as [Hs Hi].
    split; [destruct (isAiStudio env); [discriminate|reflexivity]|].
    destruct (fst (fst (generateVideoFromImage fuel env params w)))
      as [a|e|]; try discriminate.
    exists e. auto.
  - left. apply H.
Qed.

(** The cached key across the three operations, the create call being
    refused for lack of permission: the cache is emptied and the module
    uninitialized. *)
Lemma cached_key_kept_until_permission_error_witness :
  let refused := production (Resolved key_served) (Rejected permission_denied)
                   (two_polls (Resolved finished_op)) (Resolved video_ok) in
  let run := generateVideoFromImage 5 refused sample_params ready_world in
  truthy (apiKey ready_world) = Some "K1" /\
  apiKey (snd (fst (getApiKey refused ready_world))) = Some "K1" /\
  apiKey (snd (fst (initializeApp refused ready_world))) = Some "K1" /\
  permission_failure refused (fst (fst run)) = true /\
  apiKey (snd (fst run)) = None /\
  isInitialized (snd (fst run)) = false.
Proof.
  intros refused run.
  destruct (cached_key_kept_until_permission_error refused ready_world "K1"
              5 sample_params eq_refl) as [Hg [Hi [_ Hrun]]].
  cbn zeta in Hrun. fold run in Hrun.
  assert (Hp : permission_failure refused (fst (fst run)) = true)
    by reflexivity.
  rewrite Hp in Hrun.
  split; [reflexivity|]. split; [exact Hg|]. split; [exact Hi|].
  split; [exact Hp|exact Hrun].
Defined.




(** A call that resolves has gone through the whole pipeline: the loop
    returned an operation of the service with [done] set and a video URI,
    the download of that URI with the key was answered with [ok] and a
    blob, and the call resolved to the object URL of that blob. *)
Lemma generate_resolved fuel env params w result w' log :
  generateVideoFromImage fuel env params w = (Ret result, w', log) ->
  exists key operation link response videoBlob before,
    fst (fst (getApiKey env w)) = Ret key /\
    (generateVideos env = Resolved operation \/
     exists n, getVideosOperation env n = Resolved operation) /\
    truthy_flag (done operation) = true /\
    truthy (uri operation) = Some link /\
    fetchVideo env (link ++ "&key=" ++ key)%string = Resolved response /\
    ok response = true /\
    blob response = Resolved videoBlob /\
    result = createObjectURL env videoBlob /\
    log = before ++ [FetchVideo (link ++ "&key=" ++ key)%string;
                     CreateObjectURL videoBlob].
Proof.
  intros Hg.
  destruct (isInitialized w) eqn:Hinit.
  2:{ rewrite generate_not_initialized in Hg by exact Hinit. discriminate. }
  destruct (getApiKey env w) as [[[key|e|] w1] l1] eqn:Hk.
  - destruct (generateVideos env) as [op0|e] eqn:Hc.
    + rewrite (generate_run _ _ _ _ _ _ _ _ Hinit Hk Hc) in Hg.
      cbn zeta in Hg.
      destruct (poll_loop env fuel 0 key op0 (start_timer w1))
        as [[[operation|e|] wl] lp] eqn:E; try discriminate.
      pose proof (poll_loop_returns_done env key _ _ _ _ _ _ _ E) as Hdone.
      pose proof (poll_loop_returns_seen env key _ _ _ _ _ _ _ E) as Hseen.
      destruct (download env key operation) as [r ld] eqn:Hd.
      cbn [fst snd] in Hg.
      destruct r as [url|e|]; try discriminate.
      injection Hg as -> _ <-.
      unfold download in Hd.
      destruct (truthy (uri operation)) as [link|] eqn:Hu; [|discriminate].
      destruct (fetchVideo env _) as [response|e] eqn:Hf; [|discriminate].
      destruct (ok response) eqn:Hok.
      * destruct (blob response) as [videoBlob|e] eqn:Hb; [|discriminate].
        injection Hd as <- <-.
        exists key, operation, link, response, videoBlob,
          (l1 ++ opening key params (nextTimerId w1) ++ lp
              ++ closing (nextTimerId w1)).
        split; [reflexivity|]. split.
        { destruct Hseen as [-> | H]; [left; reflexivity | right; exact H]. }
        split; [exact Hdone|]. split; [exact Hu|].
        split; [exact Hf|]. split; [exact Hok|]. split; [exact Hb|].
        split; [reflexivity|].
        repeat rewrite <- app_assoc. reflexivity.
      * destruct (text response); discriminate.
    + rewrite (generate_create_rejected _ _ _ _ _ _ _ _ Hinit Hk Hc) in Hg.
      discriminate.
  - rewrite (generate_no_key _ _ _ _ _ _ _ Hinit Hk) in Hg. discriminate.
  - destruct (getApiKey_cases env w) as (r & w0 & l0 & E & _ & Hnp & _).
    congruence.
Qed.

(** C9.  A successful [generateVideoFromImage] resolves to a string: the
    object URL made from the blob of the download response, the download
    being the last request of the call (for the video URI of a completed
    operation, with the key).  [handleGenerateVideo] reads [url] and
    [blob] from that string: both are [undefined], so after a successful
    generation the component holds neither a video URL nor a blob and the
    player is not shown. *)
Theorem successful_generation_shows_no_video
    fuel env st w image result w' log :
  App.appState st = App.ready ->
  truthy (App.imageBase64 st) = Some image ->
  App.prompt st <> "" ->
  generateVideoFromImage fuel env
    {| prompt := App.prompt st; imageBase64 := image;
       aspectRatio := App.aspectRatio st |} w = (Ret result, w', log) ->
  (exists key operation link response videoBlob before,
     fst (fst (getApiKey env w)) = Ret key /\
     (generateVideos env = Resolved operation \/
      exists n, getVideosOperation env n = Resolved operation) /\
     truthy_flag (done operation) = true /\
     truthy (uri operation) = Some link /\
     fetchVideo env (link ++ "&key=" ++ key)%string = Resolved response /\
     ok response = true /\
     blob response = Resolved videoBlob /\
     result = createObjectURL env videoBlob /\
     log = before ++ [FetchVideo (link ++ "&key=" ++ key)%string;
                      CreateObjectURL videoBlob]) /\
  exists st',
    App.handleGenerateVideo fuel env st w = (Ret st', w', log) /\
    App.generatedVideoUrl st' = App.VUndefined /\
    App.generatedVideoBlob st' = App.VUndefined /\
    App.error st' = None /\
    App.shows_video st' = false.
Proof.
  intros Hr Hi Hp Hg. split.
  - eapply generate_resolved. exact Hg.
  - rewrite (handleGenerateVideo_settled fuel env st w image Hr Hi Hp).
    cbn zeta. rewrite Hg. eexists. split; [reflexivity|].
    repeat apply conj; reflexivity.
Qed.

(** A generation that succeeds, what it downloaded and what the component
    holds after it. *)
Lemma successful_generation_shows_no_video_witness :
  let env := production (Resolved key_served) (Resolved created_op)
               (two_polls (Resolved finished_op)) (Resolved video_ok) in
  App.appState ready_ui = App.ready /\
  truthy (App.imageBase64 ready_ui) = Some "iVBORw0KGgo=" /\
  App.prompt ready_ui <> "" /\
  fst (fst (generateVideoFromImage 5 env sample_params ready_world)) =
    Ret "blob:mp4" /\
  (exists key operation link response videoBlob before,
     fetchVideo env (link ++ "&key=" ++ key)%string = Resolved response /\
     truthy (uri operation) = Some link /\
     blob response = Resolved videoBlob /\
     "blob:mp4" = createObjectURL env videoBlob /\
     snd (generateVideoFromImage 5 env sample_params ready_world)
       = before ++ [FetchVideo (link ++ "&key=" ++ key)%string;
                    CreateObjectURL videoBlob]) /\
  exists st',
    fst (fst (App.handleGenerateVideo 5 env ready_ui ready_world)) = Ret st' /\
    App.generatedVideoUrl st' = App.VUndefined /\
    App.generatedVideoBlob st' = App.VUndefined /\
    App.shows_video st' = false.
Proof.
  intros env.
  assert (Hp : App.prompt ready_ui <> "") by discriminate.
  destruct (generateVideoFromImage 5 env sample_params ready_world)
    as [[r w'] log] eqn:Hg.
  assert (Hres : r = Ret "blob:mp4")
    by (change r with (fst (fst (r, w', log))); rewrite <- Hg; reflexivity).
  subst r.
  destruct (successful_generation_shows_no_video 5 env ready_ui ready_world
              "iVBORw0KGgo=" "blob:mp4" w' log eq_refl eq_refl Hp Hg)
    as [(key & operation & link & response & videoBlob & before
         & _ & _ & _ & Hu & Hf & _ & Hb & Hres & Hlog)
        [st' [Hrun [Hurl [Hblob [_ Hshow]]]]]].
  split; [reflexivity|]. split; [reflexivity|]. split; [exact Hp|].
  split; [reflexivity|]. split.
  - exists key, operation, link, response, videoBlob, before. cbn [snd]. auto.
  - exists st'. split; [rewrite Hrun; reflexivity|]. auto.
Defined.
